(** * ActiveSlam: the grid-world environment of [env.py]

    A shallow embedding of [ActiveSlamEnv] (reset, step and the 8-direction
    LIDAR scan) together with the properties of its specification.

    - numpy integer arrays are lists of rows of [Z]; indexing follows numpy
      (a negative index counts from the end, anything else out of range
      raises [IndexError]);
    - the object's fields are a record [env]; methods are computations in a
      state-and-exception monad [M], so a raised exception keeps the
      mutations made before it, as in Python;
    - the [while True:] loop of the scan is a fixpoint on a fuel counter and
      reports [Diverge] when the counter runs out; the termination theorems
      show that this never happens;
    - rewards and the coverage ratio are IEEE binary64 numbers, the kernel's
      primitive floats. *)

From Stdlib Require Import ZArith Lia Bool PrimFloat FloatAxioms Uint63.
From stdpp Require Import base tactics option list.

#[local] Set Warnings "-inexact-float".
Local Open Scope Z_scope.

(** ** Exceptions, outcomes and the method monad *)

Inductive exn : Set :=
| IndexError
| ValueError
| ZeroDivisionError.

Inductive outcome (S A : Type) : Type :=
| Ok (a : A) (s : S)       (* normal return, with the state reached *)
| Raise (x : exn) (s : S)  (* exception, with the state at the raise *)
| Diverge.                 (* the loop counter ran out *)

Arguments Ok {S A} a s.
Arguments Raise {S A} x s.
Arguments Diverge {S A}.

Definition final_state {S A} (o : outcome S A) : option S :=
  match o with
  | Ok _ s | Raise _ s => Some s
  | Diverge => None
  end.

Module Method.

Definition M (S A : Type) : Type := S -> outcome S A.

Definition ret {S A} (a : A) : M S A := fun s => Ok a s.

Definition bind {S A B} (m : M S A) (k : A -> M S B) : M S B :=
  fun s =>
    match m s with
    | Ok a s' => k a s'
    | Raise x s' => Raise x s'
    | Diverge => Diverge
    end.

Definition get {S} : M S S := fun s => Ok s s.
Definition gets {S A} (f : S -> A) : M S A := fun s => Ok (f s) s.
Definition modify {S} (f : S -> S) : M S unit := fun s => Ok tt (f s).
Definition raise {S A} (x : exn) : M S A := fun s => Raise x s.

(** The result of an indexing operation: [None] is numpy's IndexError. *)
Definition index {S A} (o : option A) : M S A :=
  match o with
  | Some a => ret a
  | None => raise IndexError
  end.

(** [for a in l: body], threading the loop's local variables [v]. *)
Fixpoint for_each {S A V} (l : list A) (body : A -> V -> M S V) (v : V) : M S V :=
  match l with
  | [] => ret v
  | a :: l' => bind (body a v) (for_each l' body)
  end.

End Method.

Import Method.

Notation "x <~ m ; k" := (bind m (fun x => k))
  (at level 20, m at level 100, k at level 200, only parsing).

(** ** numpy arrays of integers *)

Abbreviation ndarray := (list (list Z)).

(** Index normalisation of numpy (and of Python lists) along an axis of
    length [n]. *)
Definition norm_index (n : nat) (i : Z) : option nat :=
  if (0 <=? i) && (i <? Z.of_nat n) then Some (Z.to_nat i)
  else if (- Z.of_nat n <=? i) && (i <? 0) then Some (Z.to_nat (i + Z.of_nat n))
  else None.

(** [a.shape] of a two-dimensional array. *)
Definition shape (a : ndarray) : Z * Z :=
  (Z.of_nat (length a), Z.of_nat (length (hd [] a))).

(** [a.size] *)
Definition size (a : ndarray) : Z := fst (shape a) * snd (shape a).

(** [a[r, c]] *)
Definition getitem (a : ndarray) (r c : Z) : option Z :=
  i ← norm_index (length a) r;
  row ← a !! i;
  j ← norm_index (length row) c;
  row !! j.

(** [a[r, c] = v] *)
Definition setitem (a : ndarray) (r c : Z) (v : Z) : option ndarray :=
  i ← norm_index (length a) r;
  row ← a !! i;
  j ← norm_index (length row) c;
  Some (<[i := <[j := v]> row]> a).

(** [np.full((h, w), v, dtype=int)] *)
Definition full (h w : Z) (v : Z) : ndarray :=
  replicate (Z.to_nat h) (replicate (Z.to_nat w) v).

(** [np.argwhere(a == v)]: the coordinates of the matching cells, row-major. *)
Fixpoint where_in_row (v : Z) (row : list Z) (c : Z) : list Z :=
  match row with
  | [] => []
  | x :: row' =>
      if x =? v then c :: where_in_row v row' (c + 1)
      else where_in_row v row' (c + 1)
  end.

Fixpoint argwhere_from (v : Z) (a : ndarray) (r : Z) : list (Z * Z) :=
  match a with
  | [] => []
  | row :: a' => map (pair r) (where_in_row v row 0) ++ argwhere_from v a' (r + 1)
  end.

Definition argwhere (a : ndarray) (v : Z) : list (Z * Z) := argwhere_from v a 0.

(** [a.flatten()] *)
Definition flatten (a : ndarray) : list Z := concat a.

(** [np.count_nonzero(a != v)] *)
Definition count_nonzero_ne (a : ndarray) (v : Z) : Z :=
  Z.of_nat (length (filter (λ x, x ≠ v) (flatten a))).

(** A list of rows is an array of shape [(h, w)]. *)
Definition rect (h w : Z) (a : ndarray) : Prop :=
  Z.of_nat (length a) = h ∧ Forall (λ row, Z.of_nat (length row) = w) a.

(** ** Python numbers: the reward starts as the int [0] and becomes a float *)

(** [float(n)] for an int of magnitude below 2^63 (cell counts and array
    sizes, which numpy itself keeps in 64-bit integers). *)
Definition float_of_int (n : Z) : float :=
  if n <? 0 then PrimFloat.opp (PrimFloat.of_uint63 (Uint63.of_Z (- n)))
  else PrimFloat.of_uint63 (Uint63.of_Z n).

Inductive pynum : Set :=
| PyInt (n : Z)
| PyFloat (x : float).

Definition to_float (a : pynum) : float :=
  match a with
  | PyInt n => float_of_int n
  | PyFloat x => x
  end.

Definition py_arith (fz : Z -> Z -> Z) (ff : float -> float -> float) (a b : pynum) : pynum :=
  match a, b with
  | PyInt m, PyInt n => PyInt (fz m n)
  | _, _ => PyFloat (ff (to_float a) (to_float b))
  end.

Definition py_add := py_arith Z.add PrimFloat.add.
Definition py_sub := py_arith Z.sub PrimFloat.sub.
Definition py_mul := py_arith Z.mul PrimFloat.mul.

(** [m / n] on ints, for [n] other than zero: true division, a float. The
    cell counts that reach it are far below 2^53, where both conversions are
    exact. *)
Definition py_truediv (m n : Z) : float :=
  PrimFloat.div (float_of_int m) (float_of_int n).

(** ** The environment object *)

(** [MAP_LEGEND] *)
Definition UNKNOWN : Z := -1.
Definition EMPTY : Z := 0.
Definition WALL : Z := 1.

(** [self.directions]: 0 east, 1 north, 2 west, 3 south. *)
Definition directions : list (Z * Z) := [(0, 1); (-1, 0); (0, -1); (1, 0)].

(** [self.action_space]: 0 forward, 1 turn left, 2 turn right. *)
Definition action_space : list Z := [0; 1; 2].

Record env : Type := mkEnv {
  true_map : ndarray;
  height : Z;
  width : Z;
  agent_dir : Z;
  belief_map : ndarray;
  agent_pos : Z * Z
}.

Definition set_agent_dir (d : Z) (e : env) : env :=
  mkEnv (true_map e) (height e) (width e) d (belief_map e) (agent_pos e).
Definition set_belief_map (b : ndarray) (e : env) : env :=
  mkEnv (true_map e) (height e) (width e) (agent_dir e) b (agent_pos e).
Definition set_agent_pos (p : Z * Z) (e : env) : env :=
  mkEnv (true_map e) (height e) (width e) (agent_dir e) (belief_map e) p.

Abbreviation method := (M env).

(** [self.belief_map[r, c] = v] *)
Definition belief_setitem (r c v : Z) : method unit :=
  b <~ gets belief_map;
  b' <~ index (setitem b r c v);
  modify (set_belief_map b').

(** [_get_observation] *)
Definition get_observation : method (list Z) :=
  b <~ gets belief_map; ret (flatten b).

(** *** The LIDAR scan, [_update_belief_map_with_lidar] *)

(** The test [0 <= ray_x < self.height and 0 <= ray_y < self.width]. *)
Definition in_bounds (e : env) (r c : Z) : bool :=
  (0 <=? r) && (r <? height e) && ((0 <=? c) && (c <? width e)).

(** The loop [while True:] of one ray, entered with the ray at
    [(ray_x, ray_y)] and [n] cells discovered so far. *)
Fixpoint ray (fuel : nat) (dx dy : Z) (ray_x ray_y : Z) (n : Z) : method Z :=
  match fuel with
  | O => fun _ => Diverge
  | S fuel' =>
      let ray_x := ray_x + dx in
      let ray_y := ray_y + dy in
      e <~ get;
      if negb (in_bounds e ray_x ray_y) then ret n
      else
        true_val <~ index (getitem (true_map e) ray_x ray_y);
        seen <~ index (getitem (belief_map e) ray_x ray_y);
        n <~ (if seen =? UNKNOWN
              then _ <~ belief_setitem ray_x ray_y true_val; ret (n + 1)
              else ret n);
        if true_val =? WALL then ret n
        else ray fuel' dx dy ray_x ray_y n
  end.

(** The two [for] loops over [[-1, 0, 1]], with the fuel given to each ray. *)
Definition lidar (fuel : nat) : method Z :=
  p <~ gets agent_pos;
  let '(x, y) := p in
  for_each [-1; 0; 1] (fun dx n =>
    for_each [-1; 0; 1] (fun dy n =>
      if (dx =? 0) && (dy =? 0) then ret n
      else ray fuel dx dy x y n) n) 0.

(** Iterations granted to each ray: one more than the longer side of the
    map. Every ray leaves its loop through one of the two [break]s before
    that, as the termination theorem shows. *)
Definition lidar_fuel (e : env) : nat :=
  S (Z.to_nat (Z.max (height e) (width e))).

Definition update_belief_map_with_lidar : method Z :=
  e <~ get; lidar (lidar_fuel e).

(** *** [reset] *)

Definition reset : method (list Z) :=
  e <~ get;
  _ <~ modify (set_belief_map (full (height e) (width e) UNKNOWN));
  match argwhere (true_map e) EMPTY with
  | [] => raise IndexError               (* start_pos_arr[0] *)
  | start :: _ =>
      _ <~ modify (set_agent_pos start);
      _ <~ belief_setitem (fst start) (snd start) EMPTY;
      _ <~ update_belief_map_with_lidar;
      get_observation
  end.

(** *** [step] *)

(** [self.directions[d]] *)
Definition displacement (d : Z) : option (Z * Z) :=
  i ← norm_index (length directions) d; directions !! i.

(** The cell in front of the agent. *)
Definition candidate (e : env) : option (Z * Z) :=
  d ← displacement (agent_dir e);
  Some (fst (agent_pos e) + fst d, snd (agent_pos e) + snd d).

(** Lines 106-126: the orientation change, the candidate cell and the
    collision test. Returns [is_collision]. *)
Definition move (action : Z) : method bool :=
  _ <~ (if action =? 1 then modify (fun e => set_agent_dir ((agent_dir e + 1) mod 4) e)
        else if action =? 2 then modify (fun e => set_agent_dir ((agent_dir e - 1 + 4) mod 4) e)
        else ret tt);
  e <~ get;
  new_pos <~ (if action =? 0 then index (candidate e) else ret (agent_pos e));
  cell <~ index (getitem (true_map e) (fst new_pos) (snd new_pos));
  if cell =? WALL then ret true
  else _ <~ modify (set_agent_pos new_pos); ret false.

(** Lines 131-140. *)
Definition reward_of (is_collision : bool) (newly_discovered_cells : Z) : pynum :=
  let reward := PyInt 0 in
  let reward := if is_collision then py_sub reward (PyFloat 5.0) else reward in
  let reward := py_add reward (py_mul (PyInt newly_discovered_cells) (PyFloat 1.0)) in
  py_sub reward (PyFloat 0.1).

(** The ratio of line 143 (and of line 165 of [render]). *)
Definition coverage (b : ndarray) : float :=
  py_truediv (count_nonzero_ne b UNKNOWN) (size b).

(** Line 143: the division of two Python ints raises on an empty array. *)
Definition coverage_of (b : ndarray) : method float :=
  if size b =? 0 then raise ZeroDivisionError else ret (coverage b).

(** Line 144, as a function of the belief map. *)
Definition done_of (b : ndarray) : bool := PrimFloat.ltb 0.95 (coverage b).

Definition step (action : Z) : method (list Z * pynum * bool) :=
  is_collision <~ move action;
  newly_discovered_cells <~ update_belief_map_with_lidar;
  let reward := reward_of is_collision newly_discovered_cells in
  b <~ gets belief_map;
  coverage <~ coverage_of b;
  let done := PrimFloat.ltb 0.95 coverage in
  next_observation <~ get_observation;
  ret (next_observation, reward, done).

(** *** Construction, [__init__] *)

(** The values of numpy's [int] on the platforms it is 64 bits wide. *)
Definition int64 (v : Z) : bool :=
  (-9223372036854775808 <=? v) && (v <? 9223372036854775808).

(** [np.loadtxt(map_file_path, dtype=int)], as NumPy documents it, on the
    rows of integer tokens of the file's non-blank lines: rows of unequal
    length raise [ValueError], and so does a token that does not fit the
    64-bit integer type; axes of length one are squeezed away, and an empty
    file gives an empty one-dimensional array. Returns the shape and the
    rows. No other check is made on the values. *)
Definition loadtxt (rows : list (list Z)) : exn + (list Z * ndarray) :=
  match rows with
  | [] => inr ([0], [])
  | row0 :: _ =>
      if forallb (λ row, (length row =? length row0)%nat) rows
         && forallb (forallb int64) rows
      then inr (filter (λ d, d ≠ 1) [Z.of_nat (length rows); Z.of_nat (length row0)], rows)
      else inl ValueError
  end.

Inductive constructed : Type :=
| Built (e : env)
| Failed (x : exn)
| Hung.

(** The fields [belief_map] and [agent_pos] do not exist before [reset]
    assigns them; the values given here are never read. The plotting set-up
    (step 4 of the constructor) has no effect on the fields modelled. *)
Definition init (rows : list (list Z)) : constructed :=
  match loadtxt rows with
  | inl x => Failed x
  | inr ([h; w], a) =>                   (* self.height, self.width = shape *)
      match reset (mkEnv a h w 0 [] (0, 0)) with
      | Ok _ e => Built e
      | Raise x _ => Failed x
      | Diverge => Hung
      end
  | inr _ => Failed ValueError           (* the shape is not a pair *)
  end.

(** The states of an environment object built from the map [rows]: the
    state the constructor leaves, then any state that [reset] and [step]
    lead to; a call that raises leaves the object in the state of the raise. *)
Inductive reachable_from (rows : list (list Z)) : env -> Prop :=
| reach_init e :
    init rows = Built e -> reachable_from rows e
| reach_reset e e' :
    reachable_from rows e -> final_state (reset e) = Some e' ->
    reachable_from rows e'
| reach_step e action e' :
    reachable_from rows e -> final_state (step action e) = Some e' ->
    reachable_from rows e'.

Definition reachable (e : env) : Prop := exists rows, reachable_from rows e.

(** [steps l]: the driver's loop body, [env.step(a)] for each [a] of [l]. *)
Definition steps (l : list Z) : method unit :=
  for_each l (fun a _ => _ <~ step a; ret tt) tt.

(** *** [render] *)

(** [AGENT_VIEW] *)
Definition AGENT_VIEW : Z := 5.

(** [a.astype(float)]: a fresh array of floats. *)
Definition astype_float (a : ndarray) : list (list float) :=
  (λ row : list Z, float_of_int <$> row) <$> a.

(** [a[r, c]] and [a[r, c] = v] on an array of any element type. *)
Definition array_getitem {A} (a : list (list A)) (r c : Z) : option A :=
  i ← norm_index (length a) r;
  row ← a !! i;
  j ← norm_index (length row) c;
  row !! j.

Definition array_setitem {A} (a : list (list A)) (r c : Z) (v : A) : option (list (list A)) :=
  i ← norm_index (length a) r;
  row ← a !! i;
  j ← norm_index (length row) c;
  Some (<[i := <[j := v]> row]> a).

(** [render], up to the drawing: the result is what the method hands to
    matplotlib, the array given to [imshow] and the coverage of the title.
    The calls on [self.ax] and [plt] touch no field modelled here. *)
Definition render : method (list (list float) * float) :=
  b <~ gets belief_map;
  let display_map := astype_float b in
  p <~ gets agent_pos;
  display_map <~ index (array_setitem display_map (fst p) (snd p)
                          (float_of_int AGENT_VIEW));
  coverage <~ coverage_of b;
  ret (display_map, coverage).

(** ** The driver of [rand.py] *)

Definition MAX_STEPS_PER_EPISODE : nat := 500.

(** The loop [for step in range(MAX_STEPS_PER_EPISODE):] with [todo]
    iterations left, entered at index [step]. [choice i] is the action that
    [np.random.choice(env.action_space)] returns at iteration [i]. The
    result is the number of steps taken, the total reward and whether the
    loop ended by [break]. The printing is left out. *)
Fixpoint episode_steps (todo step_index : nat) (choice : nat -> Z)
    (total_reward : pynum) : method (nat * pynum * bool) :=
  match todo with
  | O => ret (step_index, total_reward, false)
  | S todo' =>
      let action := choice step_index in
      result <~ step action;
      let '(next_obs, reward, done) := result in
      let total_reward := py_add total_reward reward in
      _ <~ render;
      if done then ret (S step_index, total_reward, true)
      else episode_steps todo' (S step_index) choice total_reward
  end.

(** One iteration of the loop over the episodes (lines 22-47). *)
Definition run_episode (choice : nat -> Z) : method (nat * pynum * bool) :=
  _ <~ reset;
  episode_steps MAX_STEPS_PER_EPISODE 0 choice (PyInt 0).

(** * The vocabulary of the properties *)

(** ** Relations between the state before and after a call *)

(** Whatever the outcome of the method, normal or exceptional, the state
    reached is related by [R] to the state of the call. *)
Definition respects {S A} (R : relation S) (m : M S A) : Prop :=
  forall s s', final_state (m s) = Some s' -> R s s'.

(** Cells that are known keep their value. *)
Definition known_kept (b b' : ndarray) : Prop :=
  forall r c v, getitem b r c = Some v -> v <> UNKNOWN -> getitem b' r c = Some v.

(** What a scan may do to the object: rewrite the belief map, keeping the
    known cells; nothing else changes. *)
Definition scan_frame (e e' : env) : Prop :=
  exists b', e' = set_belief_map b' e /\ known_kept (belief_map e) b'.

(** Within an episode the ground truth and its dimensions are fixed and the
    known cells of the belief map keep their value. *)
Definition episode_frame (e e' : env) : Prop :=
  true_map e' = true_map e /\ height e' = height e /\ width e' = width e /\
  known_kept (belief_map e) (belief_map e').

(** [reset] and [step] never touch the ground truth. *)
Definition same_truth (e e' : env) : Prop :=
  true_map e' = true_map e /\ height e' = height e /\ width e' = width e.

(** ** The cells a scan sees *)

(** The object's arrays have the dimensions its fields record. *)
Definition wf_maps (e : env) : Prop :=
  rect (height e) (width e) (true_map e) /\
  rect (height e) (width e) (belief_map e).

(** The ground truth of the map format: every cell is 0 or 1. *)
Definition binary (a : ndarray) : Prop :=
  Forall (Forall (λ v, v = EMPTY \/ v = WALL)) a.

(** The direction vectors of the scan: [{-1,0,1}^2] without [(0,0)]. *)
Definition ray_dir (dx dy : Z) : Prop :=
  -1 <= dx <= 1 /\ -1 <= dy <= 1 /\ ~ (dx = 0 /\ dy = 0).

(** The specification's reading of one ray from [(x, y)]: the cell [k >= 1]
    steps away is seen when it and every cell before it on the ray is inside
    the map and no cell before it is a wall. There is no bound on [k]. *)
Definition sees (e : env) (dx dy x y r c : Z) : Prop :=
  exists k, 1 <= k /\ r = x + k * dx /\ c = y + k * dy /\
    (forall j, 1 <= j <= k -> in_bounds e (x + j * dx) (y + j * dy) = true) /\
    (forall j, 1 <= j < k ->
       getitem (true_map e) (x + j * dx) (y + j * dy) <> Some WALL).

(** The cells seen by the eight rays from the agent's position. *)
Definition seen (e : env) (r c : Z) : Prop :=
  exists dx dy, ray_dir dx dy /\
    sees e dx dy (fst (agent_pos e)) (snd (agent_pos e)) r c.

(** The belief map [b'] is [b] after observing the cells of [V]: a seen cell
    that was unknown takes the true value, every other cell is unchanged. *)
Definition scan_rel (e : env) (V : Z -> Z -> Prop) (b b' : ndarray) : Prop :=
  forall r c, in_bounds e r c = true ->
    (getitem b' r c = getitem b r c \/ getitem b' r c = getitem (true_map e) r c) /\
    (getitem b r c <> Some UNKNOWN -> getitem b' r c = getitem b r c) /\
    (V r c -> getitem b r c = Some UNKNOWN ->
     getitem b' r c = getitem (true_map e) r c) /\
    (~ V r c -> getitem b' r c = getitem b r c).

(** The known cells of one row. *)
Definition known_in (l : list Z) : nat := length (filter (λ x, x ≠ UNKNOWN) l).

(** Cells of the map that lie beyond [(x, y)] in the direction of the ray. *)
Definition ahead (e : env) (dx dy x y : Z) : Z :=
  if 0 <? dx then height e - 1 - x
  else if dx <? 0 then x
  else if 0 <? dy then width e - 1 - y
  else y.

(** ** The invariant of the object *)

(** The orientation after the turn that an action asks for. *)
Definition turned (action : Z) (e : env) : env :=
  if action =? 1 then set_agent_dir ((agent_dir e + 1) mod 4) e
  else if action =? 2 then set_agent_dir ((agent_dir e - 1 + 4) mod 4) e
  else e.

(** The agent stands on a cell that the ground truth can look up and that
    is not a wall. *)
Definition on_free_cell (e : env) : Prop :=
  exists cell,
    getitem (true_map e) (fst (agent_pos e)) (snd (agent_pos e)) = Some cell /\
    cell <> WALL.

(** Every cell seen from the agent's position is known. *)
Definition scanned (e : env) : Prop :=
  forall r c, in_bounds e r c = true -> seen e r c ->
    getitem (belief_map e) r c <> Some UNKNOWN.

(** What holds of the object from its construction on: arrays of the recorded
    shape, an orientation code in range, the agent on a cell that is not a
    wall, a start cell for the next [reset], and, on a 0/1 map, a belief map
    that already holds everything visible from the agent's position. *)
Record inv (e : env) : Prop := mkInv {
  inv_maps : wf_maps e;
  inv_dir : 0 <= agent_dir e < 4;
  inv_free : on_free_cell e;
  inv_start : argwhere (true_map e) EMPTY <> [];
  inv_scanned : binary (true_map e) -> scanned e
}.

(** ** The claims, as predicates on a state *)

(** The ground truth marks a cell as a wall. *)
Definition is_wall (a : ndarray) (p : Z * Z) : bool :=
  match getitem a (fst p) (snd p) with
  | Some cell => cell =? WALL
  | None => false
  end.

(** [step action] returns; its move reports [is_collision] and the agent
    ends at [pos']; the reward is the one of that collision flag. *)
Definition step_reports (action : Z) (e : env) (is_collision : bool) (pos' : Z * Z) : Prop :=
  exists e1 n e',
    move action e = Ok is_collision e1 /\
    update_belief_map_with_lidar e1 = Ok n e' /\
    step action e =
      Ok (flatten (belief_map e'), reward_of is_collision n, done_of (belief_map e')) e' /\
    agent_pos e' = pos'.

(** The claim on the Forward action, at one state. *)
Definition forward_claim (e : env) : Prop :=
  exists cand,
    candidate e = Some cand /\
    if is_wall (true_map e) cand
    then step_reports 0 e true (agent_pos e)
    else step_reports 0 e false cand.

(** The claim on the Turn actions, at one state. *)
Definition turn_claim (e : env) : Prop :=
  step_reports 1 e false (agent_pos e) /\ step_reports 2 e false (agent_pos e).

(** The reward formula of the specification, in binary64 arithmetic. *)
Definition reward_formula (collided : bool) (newly_discovered : Z) : float :=
  ((if collided then -5.0 else 0.0) + float_of_int newly_discovered * 1.0 - 0.1)%float.

(** Multiplying the float of a count by 1.0 gives it back, for every count
    up to [N]. *)
Definition unit_product_table (N : Z) : bool :=
  forallb (λ k, PrimFloat.Leibniz.eqb (float_of_int k * 1.0)%float (float_of_int k))
          (seqZ 0 (N + 1)).

(** The float test [coverage > 0.95] agrees with the exact comparison of
    [c / s] with [19 / 20]. *)
Definition threshold_agrees (s c : Z) : bool :=
  Bool.eqb (PrimFloat.ltb 0.95 (py_truediv c s)) (19 * s <? 20 * c).

(** ... for every array size [s] up to [N] and every count [c] up to [s]. *)
Definition threshold_table (N : Z) : bool :=
  forallb (λ s, forallb (threshold_agrees s) (seqZ 0 (s + 1))) (seqZ 1 N).

(** [step] rejects an action: it raises and leaves the object as it was. *)
Definition rejects (action : Z) (e : env) : Prop :=
  exists x, step action e = Raise x e.

(** The invariant of the specification on the agent's position. *)
Definition position_claim (e : env) : Prop :=
  in_bounds e (fst (agent_pos e)) (snd (agent_pos e)) = true /\
  getitem (true_map e) (fst (agent_pos e)) (snd (agent_pos e)) = Some EMPTY.

(** The map is enclosed: every cell of its border is a wall. *)
Definition walled (e : env) : Prop :=
  forall r c, in_bounds e r c = true ->
    r = 0 \/ r = height e - 1 \/ c = 0 \/ c = width e - 1 ->
    getitem (true_map e) r c = Some WALL.

(** The map source is a rectangular matrix of zeros and ones. *)
Definition well_formed_source (rows : list (list Z)) : Prop :=
  Forall (λ row, length row = length (hd [] rows)) rows /\ binary rows.

(** ** Maps and states to run the code on *)

(** A 5x5 room: a wall border around a 3x3 open area. *)
Definition room : list (list Z) :=
  [[1; 1; 1; 1; 1];
   [1; 0; 0; 0; 1];
   [1; 0; 0; 0; 1];
   [1; 0; 0; 0; 1];
   [1; 1; 1; 1; 1]].

(** The object that [ActiveSlamEnv] builds from [room]. *)
Definition room_start : env :=
  mkEnv room 5 5 0
    [[ 1;  1;  1; -1; -1];
     [ 1;  0;  0;  0;  1];
     [ 1;  0;  0; -1; -1];
     [-1;  0; -1;  0; -1];
     [-1;  1; -1; -1;  1]]
    (1, 1).

(** A 2x2 map without any wall. *)
Definition field : list (list Z) := [[0; 0]; [0; 0]].

(** The object that [ActiveSlamEnv] builds from [field]. *)
Definition field_start : env := mkEnv field 2 2 0 [[0; 0]; [0; 0]] (0, 0).

(** The 2x2 field after a left turn: the agent faces north on the top row. *)
Definition field_north : env := mkEnv field 2 2 1 [[0; 0]; [0; 0]] (0, 0).

(** The 2x2 field after one step forward: the agent faces east on the last
    column. *)
Definition field_east : env := mkEnv field 2 2 0 [[0; 0]; [0; 0]] (0, 1).

(** The 2x2 field after a left turn and a step forward from the top row. *)
Definition field_outside : env := mkEnv field 2 2 1 [[0; 0]; [0; 0]] (-1, 0).

(** ** Further vocabulary *)

(** The belief map is right wherever it is known. *)
Definition sound (e : env) : Prop :=
  forall r c v, in_bounds e r c = true ->
    getitem (belief_map e) r c = Some v -> v <> UNKNOWN ->
    getitem (true_map e) r c = Some v.

(** [(r1, c1)] comes before [(r2, c2)] in row-major order, or is it. *)
Definition row_major_le (p q : Z * Z) : Prop :=
  fst p < fst q \/ (fst p = fst q /\ snd p <= snd q).

(** An outcome, with the final state changed by [f]. *)
Definition outcome_map {S A} (f : S -> S) (o : outcome S A) : outcome S A :=
  match o with
  | Ok a s => Ok a (f s)
  | Raise x s => Raise x (f s)
  | Diverge => Diverge
  end.

(** The test of [walled], cell by cell. *)
Definition walledb (e : env) : bool :=
  forallb (λ r,
    forallb (λ c,
      if (r =? 0) || (r =? height e - 1) || (c =? 0) || (c =? width e - 1)
      then match getitem (true_map e) r c with
           | Some v => v =? WALL
           | None => false
           end
      else true) (seqZ 0 (width e))) (seqZ 0 (height e)).

(** * Properties *)

(** ** Indexing *)

Lemma norm_index_lt n i k : norm_index n i = Some k -> (k < n)%nat.
Proof.
  unfold norm_index. intros H.
  destruct ((0 <=? i) && (i <? Z.of_nat n)) eqn:E1.
  - injection H as <-. apply andb_prop in E1 as [? ?]. lia.
  - destruct ((- Z.of_nat n <=? i) && (i <? 0)) eqn:E2; [|discriminate].
    injection H as <-. apply andb_prop in E2 as [? ?]. lia.
Qed.

Lemma norm_index_inside n i :
  0 <= i < Z.of_nat n -> norm_index n i = Some (Z.to_nat i).
Proof.
  intros H. unfold norm_index.
  replace ((0 <=? i) && (i <? Z.of_nat n)) with true; [done|].
  symmetry. apply andb_true_intro. split; lia.
Qed.

Lemma norm_index_wrap n i :
  - Z.of_nat n <= i < 0 -> norm_index n i = Some (Z.to_nat (i + Z.of_nat n)).
Proof.
  intros H. unfold norm_index.
  replace ((0 <=? i) && (i <? Z.of_nat n)) with false.
  - replace ((- Z.of_nat n <=? i) && (i <? 0)) with true; [done|].
    symmetry. apply andb_true_intro. split; lia.
  - symmetry. apply andb_false_intro1. lia.
Qed.

Lemma norm_index_above n i : Z.of_nat n <= i -> norm_index n i = None.
Proof.
  intros H. unfold norm_index.
  replace ((0 <=? i) && (i <? Z.of_nat n)) with false.
  - replace ((- Z.of_nat n <=? i) && (i <? 0)) with false; [done|].
    symmetry. apply andb_false_intro2. lia.
  - symmetry. apply andb_false_intro2. lia.
Qed.

Lemma norm_index_nonneg n i k :
  0 <= i -> norm_index n i = Some k -> k = Z.to_nat i.
Proof.
  intros Hi. unfold norm_index.
  destruct ((0 <=? i) && (i <? Z.of_nat n)); [congruence|].
  replace ((- Z.of_nat n <=? i) && (i <? 0)) with false; [done|].
  symmetry. apply andb_false_intro2. lia.
Qed.

(** The cell that a pair of indices addresses, and its row. *)
Lemma getitem_Some a r c v :
  getitem a r c = Some v <->
  exists i row j,
    norm_index (length a) r = Some i /\ a !! i = Some row /\
    norm_index (length row) c = Some j /\ row !! j = Some v.
Proof.
  unfold getitem. split.
  - intros H.
    destruct (norm_index (length a) r) as [i|] eqn:Ei; [|done]. simpl in H.
    destruct (a !! i) as [row|] eqn:Erow; [|done]. simpl in H.
    destruct (norm_index (length row) c) as [j|] eqn:Ej; [|done]. simpl in H.
    by exists i, row, j.
  - intros (i & row & j & -> & Hrow & Hj & Hv). simpl.
    rewrite Hrow. simpl. rewrite Hj. done.
Qed.

Lemma setitem_Some a r c v a' :
  setitem a r c v = Some a' <->
  exists i row j,
    norm_index (length a) r = Some i /\ a !! i = Some row /\
    norm_index (length row) c = Some j /\ a' = <[i := <[j := v]> row]> a.
Proof.
  unfold setitem. split.
  - intros H.
    destruct (norm_index (length a) r) as [i|] eqn:Ei; [|done]. simpl in H.
    destruct (a !! i) as [row|] eqn:Erow; [|done]. simpl in H.
    destruct (norm_index (length row) c) as [j|] eqn:Ej; [|done]. simpl in H.
    exists i, row, j. by injection H as <-.
  - intros (i & row & j & -> & Hrow & Hj & ->). simpl.
    rewrite Hrow. simpl. rewrite Hj. done.
Qed.

(** A cell that can be read can be written. *)
Lemma setitem_defined a r c u v :
  getitem a r c = Some u -> exists a', setitem a r c v = Some a'.
Proof.
  intros (i & row & j & Hi & Hrow & Hj & _)%getitem_Some.
  eexists. apply setitem_Some. by exists i, row, j.
Qed.

Lemma setitem_length a r c v a' :
  setitem a r c v = Some a' -> length a' = length a.
Proof.
  intros (i & row & j & _ & _ & _ & ->)%setitem_Some. apply length_insert.
Qed.

Lemma setitem_getitem_same a r c v a' :
  setitem a r c v = Some a' -> getitem a' r c = Some v.
Proof.
  intros (i & row & j & Hi & Hrow & Hj & ->)%setitem_Some.
  apply getitem_Some. exists i, (<[j := v]> row), j.
  rewrite !length_insert. repeat split; try done.
  - apply list_lookup_insert_eq. by eapply norm_index_lt.
  - apply list_lookup_insert_eq. by eapply norm_index_lt.
Qed.

(** Writing a cell leaves every cell with a different content alone. *)
Lemma setitem_getitem_distinct a r c v a' x r' c' u :
  setitem a r c v = Some a' ->
  getitem a r c = Some x ->
  getitem a r' c' = Some u ->
  u <> x ->
  getitem a' r' c' = Some u.
Proof.
  intros (i & row & j & Hi & Hrow & Hj & ->)%setitem_Some Hx Hu Hne.
  apply getitem_Some in Hx as (i0 & row0 & j0 & Hi0 & Hrow0 & Hj0 & Hx).
  apply getitem_Some in Hu as (i' & row' & j' & Hi' & Hrow' & Hj' & Hu).
  simplify_eq.
  apply getitem_Some. rewrite length_insert.
  destruct (decide (i = i')) as [->|Hii].
  - simplify_eq. exists i', (<[j := v]> row), j'.
    rewrite length_insert. repeat split; try done.
    + apply list_lookup_insert_eq. by eapply norm_index_lt.
    + rewrite list_lookup_insert_ne; [done|]. intros ->. congruence.
  - exists i', row', j'. repeat split; try done.
    by rewrite list_lookup_insert_ne.
Qed.

(** On coordinates that are not negative, distinct pairs are distinct cells. *)
Lemma setitem_getitem_other a r c v a' r' c' :
  setitem a r c v = Some a' ->
  0 <= r -> 0 <= c -> 0 <= r' -> 0 <= c' ->
  (r, c) <> (r', c') ->
  getitem a' r' c' = getitem a r' c'.
Proof.
  intros (i & row & j & Hi & Hrow & Hj & ->)%setitem_Some Hr Hc Hr' Hc' Hne.
  apply (norm_index_nonneg _ _ _ Hr) in Hi as Hi2.
  apply (norm_index_nonneg _ _ _ Hc) in Hj as Hj2.
  unfold getitem. rewrite length_insert.
  destruct (norm_index (length a) r') as [i'|] eqn:Ei'; [|done]. simpl.
  apply (norm_index_nonneg _ _ _ Hr') in Ei' as Hi'2.
  destruct (decide (i = i')) as [<-|Hii].
  - rewrite list_lookup_insert_eq by (by eapply norm_index_lt).
    rewrite Hrow. simpl. rewrite length_insert.
    destruct (norm_index (length row) c') as [j'|] eqn:Ej'; [|done]. simpl.
    apply (norm_index_nonneg _ _ _ Hc') in Ej' as Hj'2.
    rewrite list_lookup_insert_ne; [done|].
    intros <-. apply Hne. f_equal; lia.
  - by rewrite list_lookup_insert_ne.
Qed.

(** ** Arrays of a given shape *)

Lemma rect_getitem h w a r c :
  rect h w a -> 0 <= r < h -> 0 <= c < w -> is_Some (getitem a r c).
Proof.
  intros [Hlen Hrows] Hr Hc.
  destruct (lookup_lt_is_Some_2 a (Z.to_nat r)) as [row Hrow]; [lia|].
  assert (Z.of_nat (length row) = w) as Hw.
  { rewrite Forall_forall in Hrows. apply Hrows.
    apply list_elem_of_lookup. eauto. }
  destruct (lookup_lt_is_Some_2 row (Z.to_nat c)) as [v Hv]; [lia|].
  exists v. apply getitem_Some. exists (Z.to_nat r), row, (Z.to_nat c).
  repeat split; try done; apply norm_index_inside; lia.
Qed.

Lemma rect_setitem h w a r c v a' :
  rect h w a -> setitem a r c v = Some a' -> rect h w a'.
Proof.
  intros [Hlen Hrows] (i & row & j & Hi & Hrow & Hj & ->)%setitem_Some.
  split; [by rewrite length_insert|].
  apply Forall_insert; [done|]. rewrite length_insert.
  rewrite Forall_forall in Hrows. apply Hrows.
  apply list_elem_of_lookup. eauto.
Qed.

Lemma rect_full h w v : 0 <= h -> 0 <= w -> rect h w (full h w v).
Proof.
  intros Hh Hw. unfold rect, full. rewrite length_replicate. split; [lia|].
  apply Forall_replicate. rewrite length_replicate. lia.
Qed.

Lemma rect_size h w a : rect h w a -> 0 < h -> size a = h * w.
Proof.
  intros [Hlen Hrows] Hh. unfold size, shape. simpl.
  destruct a as [|row a]; simpl in *; [lia|].
  apply Forall_cons_1 in Hrows as [Hw _]. lia.
Qed.

Lemma size_nonzero h w a : rect h w a -> 0 < h -> 0 < w -> (size a =? 0) = false.
Proof.
  intros Hrect Hh Hw. rewrite (rect_size h w a Hrect Hh).
  apply Z.eqb_neq. pose proof (Z.mul_pos_pos h w Hh Hw). lia.
Qed.

Lemma getitem_dims h w a r c v :
  rect h w a -> getitem a r c = Some v -> 0 < h /\ 0 < w.
Proof.
  intros [Hlen Hrows] (i & row & j & Hi & Hrow & Hj & _)%getitem_Some.
  apply norm_index_lt in Hi, Hj.
  pose proof (Forall_lookup_1 _ _ _ _ Hrows Hrow) as Hw. simpl in Hw. lia.
Qed.

Lemma full_getitem h w v r c :
  0 <= r < h -> 0 <= c < w -> getitem (full h w v) r c = Some v.
Proof.
  intros Hr Hc. apply getitem_Some.
  exists (Z.to_nat r), (replicate (Z.to_nat w) v), (Z.to_nat c).
  unfold full. rewrite !length_replicate. repeat split.
  - apply norm_index_inside. lia.
  - apply lookup_replicate. split; [done|lia].
  - apply norm_index_inside. lia.
  - apply lookup_replicate. split; [done|lia].
Qed.

(** ** Methods that respect a relation between the state before and after *)

Section Respects.
Context {S : Type} (R : relation S) `{!PreOrder R}.

Lemma respects_ret {A} (a : A) : respects R (ret a).
Proof. intros s s' [= <-]. reflexivity. Qed.

Lemma respects_raise {A} x : respects R (raise (A:=A) x).
Proof. intros s s' [= <-]. reflexivity. Qed.

Lemma respects_get : respects R get.
Proof. intros s s' [= <-]. reflexivity. Qed.

Lemma respects_gets {A} (f : S -> A) : respects R (gets f).
Proof. intros s s' [= <-]. reflexivity. Qed.

Lemma respects_index {A} (o : option A) : respects R (index o).
Proof. destruct o; [apply respects_ret | apply respects_raise]. Qed.

Lemma respects_modify f : (forall s, R s (f s)) -> respects R (modify f).
Proof. intros Hf s s' [= <-]. apply Hf. Qed.

Lemma respects_bind {A B} (m : M S A) (k : A -> M S B) :
  respects R m -> (forall a, respects R (k a)) -> respects R (bind m k).
Proof.
  intros Hm Hk s s'. unfold bind.
  destruct (m s) as [a s1|x s1|] eqn:E; [| |done].
  - intros H. transitivity s1.
    + apply Hm. by rewrite E.
    + by apply (Hk a).
  - intros [= <-]. apply Hm. by rewrite E.
Qed.

Lemma respects_for_each {A V} (l : list A) (body : A -> V -> M S V) v :
  (forall a v, respects R (body a v)) -> respects R (for_each l body v).
Proof.
  intros Hbody. revert v.
  induction l as [|a l IH]; intros v; simpl.
  - apply respects_ret.
  - apply respects_bind; [apply Hbody | apply IH].
Qed.

End Respects.

(** ** One ray of the scan *)

Lemma ray_S fuel dx dy x y n e :
  ray (S fuel) dx dy x y n e =
  if in_bounds e (x + dx) (y + dy) then
    match getitem (true_map e) (x + dx) (y + dy),
          getitem (belief_map e) (x + dx) (y + dy) with
    | Some true_val, Some seen =>
        if seen =? UNKNOWN then
          match setitem (belief_map e) (x + dx) (y + dy) true_val with
          | Some b' =>
              if true_val =? WALL then Ok (n + 1) (set_belief_map b' e)
              else ray fuel dx dy (x + dx) (y + dy) (n + 1) (set_belief_map b' e)
          | None => Raise IndexError e
          end
        else if true_val =? WALL then Ok n e
             else ray fuel dx dy (x + dx) (y + dy) n e
    | _, _ => Raise IndexError e
    end
  else Ok n e.
Proof.
  simpl. unfold bind, get, ret, index, raise, belief_setitem, bind, gets, modify.
  destruct (in_bounds e (x + dx) (y + dy)); simpl; [|done].
  destruct (getitem (true_map e) (x + dx) (y + dy)) as [tv|]; simpl; [|done].
  destruct (getitem (belief_map e) (x + dx) (y + dy)) as [s|]; simpl; [|done].
  destruct (s =? UNKNOWN); simpl.
  - destruct (setitem (belief_map e) (x + dx) (y + dy) tv); simpl; [|done].
    by destruct (tv =? WALL).
  - by destruct (tv =? WALL).
Qed.

#[local] Instance known_kept_preorder : PreOrder known_kept.
Proof.
  split.
  - by intros b r c v.
  - intros b1 b2 b3 H12 H23 r c v Hv Hne. apply H23; [|done]. by apply H12.
Qed.

#[local] Instance scan_frame_preorder : PreOrder scan_frame.
Proof.
  split.
  - intros e. exists (belief_map e). split; [by destruct e|reflexivity].
  - intros e1 e2 e3 (b2 & -> & H12) (b3 & -> & H23).
    exists b3. split; [done|]. simpl in H23. by transitivity b2.
Qed.

Lemma setitem_known_kept b r c v b' :
  setitem b r c v = Some b' -> getitem b r c = Some UNKNOWN -> known_kept b b'.
Proof.
  intros Hset Hold r' c' u Hu Hne.
  by eapply setitem_getitem_distinct.
Qed.

Lemma ray_scan_frame fuel dx dy x y n : respects scan_frame (ray fuel dx dy x y n).
Proof.
  revert x y n. induction fuel as [|fuel IH]; intros x y n e e'; [done|].
  rewrite ray_S.
  destruct (in_bounds e (x + dx) (y + dy)); [|intros [= <-]; reflexivity].
  destruct (getitem (true_map e) (x + dx) (y + dy)) as [tv|];
    [|intros [= <-]; reflexivity].
  destruct (getitem (belief_map e) (x + dx) (y + dy)) as [s|] eqn:Es;
    [|intros [= <-]; reflexivity].
  destruct (s =? UNKNOWN) eqn:Eu.
  - apply Z.eqb_eq in Eu as ->.
    destruct (setitem (belief_map e) (x + dx) (y + dy) tv) as [b'|] eqn:Eset;
      [|intros [= <-]; reflexivity].
    assert (scan_frame e (set_belief_map b' e)) as Hstep.
    { exists b'. split; [done|]. by eapply setitem_known_kept. }
    destruct (tv =? WALL).
    + by intros [= <-].
    + intros H. transitivity (set_belief_map b' e); [done|]. by eapply IH.
  - destruct (tv =? WALL).
    + intros [= <-]. reflexivity.
    + apply IH.
Qed.

Lemma lidar_scan_frame fuel : respects scan_frame (lidar fuel).
Proof.
  unfold lidar. apply respects_bind; [apply _|apply respects_gets; apply _|].
  intros [x y]. apply respects_for_each; [apply _|]. intros dx n.
  apply respects_for_each; [apply _|]. intros dy n'.
  destruct ((dx =? 0) && (dy =? 0)).
  - apply respects_ret. apply _.
  - apply ray_scan_frame.
Qed.

Lemma update_belief_map_with_lidar_scan_frame :
  respects scan_frame update_belief_map_with_lidar.
Proof.
  unfold update_belief_map_with_lidar.
  apply respects_bind; [apply _|apply respects_get; apply _|].
  intros e. apply lidar_scan_frame.
Qed.

(** ** What every call preserves *)

#[local] Instance episode_frame_preorder : PreOrder episode_frame.
Proof.
  split.
  - intros e. repeat split. reflexivity.
  - intros e1 e2 e3 (? & ? & ? & H12) (? & ? & ? & H23).
    repeat split; try congruence. by transitivity (belief_map e2).
Qed.

Lemma respects_weaken {S A} (R R' : relation S) (m : M S A) :
  (forall s s', R s s' -> R' s s') -> respects R m -> respects R' m.
Proof. intros HR Hm s s' H. by apply HR, Hm. Qed.

Lemma scan_frame_episode e e' : scan_frame e e' -> episode_frame e e'.
Proof. intros (b' & -> & Hk). by repeat split. Qed.

Lemma set_agent_dir_episode d e : episode_frame e (set_agent_dir d e).
Proof. repeat split. reflexivity. Qed.

Lemma set_agent_pos_episode p e : episode_frame e (set_agent_pos p e).
Proof. repeat split. reflexivity. Qed.

Ltac respects_step :=
  first
    [ apply respects_ret; apply _
    | apply respects_raise; apply _
    | apply respects_get; apply _
    | apply respects_gets; apply _
    | apply respects_index; apply _
    | apply respects_modify; intros ?;
      first [apply set_agent_dir_episode | apply set_agent_pos_episode]
    | apply respects_bind; [apply _| |intros ?] ].

Lemma move_episode_frame action : respects episode_frame (move action).
Proof.
  unfold move. respects_step.
  { destruct (action =? 1); [respects_step|].
    destruct (action =? 2); respects_step. }
  respects_step; [respects_step|].
  respects_step.
  { destruct (action =? 0); [|respects_step].
    respects_step; respects_step. }
  respects_step; [respects_step|].
  destruct (_ =? WALL); repeat respects_step.
Qed.

Lemma get_observation_episode_frame : respects episode_frame get_observation.
Proof. unfold get_observation. repeat respects_step. Qed.

Lemma step_episode_frame action : respects episode_frame (step action).
Proof.
  unfold step. respects_step; [apply move_episode_frame|].
  respects_step.
  { eapply respects_weaken; [apply scan_frame_episode|].
    apply update_belief_map_with_lidar_scan_frame. }
  cbv zeta. apply respects_bind; [apply _|respects_step|intros b].
  apply respects_bind; [apply _| |intros cov].
  { unfold coverage_of. destruct (size b =? 0); respects_step. }
  apply respects_bind; [apply _|apply get_observation_episode_frame|intros obs].
  apply respects_ret. apply _.
Qed.

Lemma steps_episode_frame l : respects episode_frame (steps l).
Proof.
  unfold steps. apply respects_for_each; [apply _|]. intros a [].
  respects_step; [apply step_episode_frame|respects_step].
Qed.

#[local] Instance same_truth_preorder : PreOrder same_truth.
Proof.
  split.
  - by intros e.
  - intros e1 e2 e3 (? & ? & ?) (? & ? & ?). repeat split; congruence.
Qed.

Lemma episode_frame_same_truth e e' : episode_frame e e' -> same_truth e e'.
Proof. intros (? & ? & ? & _). by repeat split. Qed.

Lemma belief_setitem_same_truth r c v : respects same_truth (belief_setitem r c v).
Proof.
  unfold belief_setitem.
  apply respects_bind; [apply _|apply respects_gets; apply _|intros b].
  apply respects_bind; [apply _|apply respects_index; apply _|intros b'].
  apply respects_modify. by intros e.
Qed.

Lemma reset_same_truth : respects same_truth reset.
Proof.
  unfold reset.
  apply respects_bind; [apply _|apply respects_get; apply _|intros e].
  apply respects_bind; [apply _|apply respects_modify; by intros ?|intros _].
  destruct (argwhere (true_map e) EMPTY) as [|start ?].
  { apply respects_raise. apply _. }
  apply respects_bind; [apply _|apply respects_modify; by intros ?|intros _].
  apply respects_bind; [apply _|apply belief_setitem_same_truth|intros _].
  apply respects_bind; [apply _| |intros _].
  { eapply respects_weaken; [|apply update_belief_map_with_lidar_scan_frame].
    intros s s' H. by apply episode_frame_same_truth, scan_frame_episode. }
  eapply respects_weaken; [apply episode_frame_same_truth|].
  apply get_observation_episode_frame.
Qed.

(** ** The cells a scan sees *)

Lemma in_bounds_spec e r c :
  in_bounds e r c = true <-> 0 <= r < height e /\ 0 <= c < width e.
Proof.
  unfold in_bounds. rewrite !andb_true_iff, !Z.leb_le, !Z.ltb_lt. lia.
Qed.

Lemma sees_unfold e dx dy x y r c :
  sees e dx dy x y r c <->
  in_bounds e (x + dx) (y + dy) = true /\
  ((r = x + dx /\ c = y + dy) \/
   (getitem (true_map e) (x + dx) (y + dy) <> Some WALL /\
    sees e dx dy (x + dx) (y + dy) r c)).
Proof.
  split.
  - intros (k & Hk & -> & -> & Hin & Hwall).
    assert (in_bounds e (x + dx) (y + dy) = true) as H1.
    { specialize (Hin 1). rewrite !Z.mul_1_l in Hin. apply Hin. lia. }
    split; [done|].
    destruct (decide (k = 1)) as [->|Hk1]; [left; lia|right].
    split.
    { specialize (Hwall 1). rewrite !Z.mul_1_l in Hwall. apply Hwall. lia. }
    exists (k - 1). repeat split; try lia.
    + intros j Hj. specialize (Hin (j + 1)).
      replace (x + dx + j * dx) with (x + (j + 1) * dx) by ring.
      replace (y + dy + j * dy) with (y + (j + 1) * dy) by ring.
      apply Hin. lia.
    + intros j Hj. specialize (Hwall (j + 1)).
      replace (x + dx + j * dx) with (x + (j + 1) * dx) by ring.
      replace (y + dy + j * dy) with (y + (j + 1) * dy) by ring.
      apply Hwall. lia.
  - intros [H1 [[-> ->]|[Hw (k & Hk & -> & -> & Hin & Hwall)]]].
    + exists 1. repeat split; try lia.
      intros j Hj. by replace j with 1 by lia; rewrite !Z.mul_1_l.
    + exists (k + 1). repeat split; try lia.
      * intros j Hj. destruct (decide (j = 1)) as [->|Hj1].
        { by rewrite !Z.mul_1_l. }
        specialize (Hin (j - 1)).
        replace (x + j * dx) with (x + dx + (j - 1) * dx) by ring.
        replace (y + j * dy) with (y + dy + (j - 1) * dy) by ring.
        apply Hin. lia.
      * intros j Hj. destruct (decide (j = 1)) as [->|Hj1].
        { by rewrite !Z.mul_1_l. }
        specialize (Hwall (j - 1)).
        replace (x + j * dx) with (x + dx + (j - 1) * dx) by ring.
        replace (y + j * dy) with (y + dy + (j - 1) * dy) by ring.
        apply Hwall. lia.
Qed.

Lemma scan_rel_refl e b : scan_rel e (λ _ _, False) b b.
Proof. intros r c _. repeat split; try done. by left. Qed.

Lemma scan_rel_iff e V V' b b' :
  (forall r c, V r c <-> V' r c) -> scan_rel e V b b' -> scan_rel e V' b b'.
Proof.
  intros HV H r c Hin. destruct (H r c Hin) as (H1 & H2 & H3 & H4).
  repeat split; try done.
  - intros Hv. apply H3. by apply HV.
  - intros Hv. apply H4. by rewrite HV.
Qed.

Lemma scan_rel_compose e V1 V2 b0 b1 b2 :
  scan_rel e V1 b0 b1 -> scan_rel e V2 b1 b2 ->
  scan_rel e (λ r c, V1 r c \/ V2 r c) b0 b2.
Proof.
  intros H01 H12 r c Hin.
  destruct (H01 r c Hin) as (A1 & A2 & A3 & A4).
  destruct (H12 r c Hin) as (B1 & B2 & B3 & B4).
  repeat split.
  - destruct A1 as [A1|A1], B1 as [B1|B1];
      [left; congruence|right; congruence..].
  - intros Hk. rewrite <- (A2 Hk). apply B2. by rewrite (A2 Hk).
  - intros [Hv|Hv] Hu.
    + specialize (A3 Hv Hu). destruct B1 as [B1|B1]; congruence.
    + destruct A1 as [A1|A1].
      * apply B3; [done|congruence].
      * destruct B1 as [B1|B1]; congruence.
  - intros Hv. rewrite B4 by tauto. apply A4. tauto.
Qed.

(** One iteration of the loop body: the cell at [(x, y)] is observed. *)
Lemma observe_scan_rel e x y tv s b1 :
  in_bounds e x y = true ->
  getitem (true_map e) x y = Some tv ->
  getitem (belief_map e) x y = Some s ->
  (if s =? UNKNOWN then setitem (belief_map e) x y tv = Some b1
   else b1 = belief_map e) ->
  scan_rel e (λ r c, r = x /\ c = y) (belief_map e) b1.
Proof.
  intros Hin Htv Hs Hb1 r c Hrc.
  apply in_bounds_spec in Hin, Hrc.
  destruct (s =? UNKNOWN) eqn:Eu.
  - apply Z.eqb_eq in Eu as ->.
    destruct (decide ((x, y) = (r, c))) as [[= <- <-]|Hne].
    + rewrite (setitem_getitem_same _ _ _ _ _ Hb1), Htv, Hs.
      repeat split; try done; [by right|tauto].
    + rewrite (setitem_getitem_other _ _ _ _ _ r c Hb1) by (done || lia).
      repeat split; try done; [by left|].
      intros [-> ->]. done.
  - subst b1. repeat split; try done; [by left|].
    intros [-> ->] Hu. apply Z.eqb_neq in Eu. congruence.
Qed.

(** ** Counting the known cells *)

Lemma known_in_insert (l : list Z) j v :
  l !! j = Some UNKNOWN -> v <> UNKNOWN ->
  known_in (<[j := v]> l) = S (known_in l).
Proof.
  unfold known_in. revert j. induction l as [|x l IH]; intros [|j] Hj Hv; try done.
  - simpl in Hj. injection Hj as ->. simpl.
    rewrite filter_cons_True by done.
    rewrite filter_cons_False by (intros H; by apply H). done.
  - simpl in Hj. change (<[S j := v]> (x :: l)) with (x :: <[j := v]> l).
    rewrite !filter_cons. destruct (decide (x ≠ UNKNOWN)); simpl; rewrite IH; done.
Qed.

Lemma known_in_concat_insert (a : ndarray) i row row' :
  a !! i = Some row ->
  (known_in (concat (<[i := row']> a)) + known_in row =
   known_in (concat a) + known_in row')%nat.
Proof.
  unfold known_in. revert i. induction a as [|x a IH]; intros [|i] Hi; try done.
  - simpl in Hi. injection Hi as ->. simpl.
    rewrite !filter_app, !length_app. lia.
  - simpl in Hi. change (<[S i := row']> (x :: a)) with (x :: <[i := row']> a).
    simpl. rewrite !filter_app, !length_app. specialize (IH i Hi). lia.
Qed.

Lemma count_setitem a r c v a' :
  setitem a r c v = Some a' ->
  getitem a r c = Some UNKNOWN ->
  v <> UNKNOWN ->
  count_nonzero_ne a' UNKNOWN = count_nonzero_ne a UNKNOWN + 1.
Proof.
  intros (i & row & j & Hi & Hrow & Hj & ->)%setitem_Some Hget Hv.
  apply getitem_Some in Hget as (i0 & row0 & j0 & Hi0 & Hrow0 & Hj0 & Hu).
  simplify_eq.
  pose proof (known_in_concat_insert a i row (<[j := v]> row) Hrow) as H.
  rewrite (known_in_insert row j v Hu Hv) in H.
  unfold count_nonzero_ne, flatten. unfold known_in in H. lia.
Qed.

Lemma binary_no_unknown a r c : binary a -> getitem a r c <> Some UNKNOWN.
Proof.
  intros Hb (i & row & j & _ & Hrow & _ & Hv)%getitem_Some.
  eapply Forall_lookup_1 in Hb; [|done].
  eapply Forall_lookup_1 in Hb; [|done].
  unfold UNKNOWN, EMPTY, WALL in Hb. lia.
Qed.

(** ** Total correctness of one ray *)

Lemma ahead_nonneg e dx dy x y :
  in_bounds e x y = true -> 0 <= ahead e dx dy x y.
Proof.
  intros H%in_bounds_spec. unfold ahead.
  repeat case_match; lia.
Qed.

Lemma ahead_next e dx dy x y :
  ray_dir dx dy -> ahead e dx dy (x + dx) (y + dy) = ahead e dx dy x y - 1.
Proof.
  intros (Hx & Hy & Hne). unfold ahead.
  repeat case_match; lia.
Qed.

Lemma ahead_bound e dx dy x y :
  in_bounds e x y = true -> ahead e dx dy x y + 1 <= Z.max (height e) (width e).
Proof.
  intros H%in_bounds_spec. unfold ahead.
  repeat case_match; lia.
Qed.

Lemma set_belief_map_same e : set_belief_map (belief_map e) e = e.
Proof. by destruct e. Qed.

(** With fuel for the cells ahead, the loop of a ray returns; the belief map
    it leaves observes exactly the cells the ray sees, and the counter grows
    by the number of cells that left [UNKNOWN]. *)
Lemma ray_correct dx dy fuel x y n e :
  wf_maps e -> ray_dir dx dy ->
  (0 < fuel)%nat ->
  (in_bounds e (x + dx) (y + dy) = true ->
   ahead e dx dy (x + dx) (y + dy) + 1 < Z.of_nat fuel) ->
  exists n' b',
    ray fuel dx dy x y n e = Ok n' (set_belief_map b' e) /\
    rect (height e) (width e) b' /\
    scan_rel e (sees e dx dy x y) (belief_map e) b' /\
    (binary (true_map e) ->
     count_nonzero_ne b' UNKNOWN = count_nonzero_ne (belief_map e) UNKNOWN + (n' - n)).
Proof.
  intros Hwf Hdir. revert x y n e Hwf.
  induction fuel as [|fuel IH]; intros x y n e [Htm Hbm] Hpos Hfuel; [lia|].
  rewrite ray_S.
  destruct (in_bounds e (x + dx) (y + dy)) eqn:Hin.
  2:{ exists n, (belief_map e). rewrite set_belief_map_same.
      split_and!; [done|done| |intros; lia].
      eapply scan_rel_iff; [|apply scan_rel_refl].
      intros r c. rewrite sees_unfold. split; [done|]. intros [? _]. congruence. }
  specialize (Hfuel eq_refl).
  pose proof (ahead_nonneg e dx dy _ _ Hin) as Hnn.
  pose proof Hin as Hin'. apply in_bounds_spec in Hin' as [Hr Hc].
  destruct (rect_getitem _ _ _ _ _ Htm Hr Hc) as [tv Htv].
  destruct (rect_getitem _ _ _ _ _ Hbm Hr Hc) as [s Hs].
  rewrite Htv, Hs.
  (* the belief map after this iteration *)
  assert (exists b1,
    (if s =? UNKNOWN then setitem (belief_map e) (x + dx) (y + dy) tv = Some b1
     else b1 = belief_map e)) as [b1 Hb1].
  { destruct (s =? UNKNOWN); [|by eexists].
    by eapply setitem_defined. }
  pose proof (observe_scan_rel e _ _ _ _ _ Hin Htv Hs Hb1) as Hobs.
  assert (rect (height e) (width e) b1) as Hrect1.
  { destruct (s =? UNKNOWN); [by eapply rect_setitem|by subst]. }
  assert (binary (true_map e) ->
          count_nonzero_ne b1 UNKNOWN =
          count_nonzero_ne (belief_map e) UNKNOWN + (if s =? UNKNOWN then 1 else 0))
    as Hcount1.
  { intros Hbin. destruct (s =? UNKNOWN) eqn:Eu; [|subst; lia].
    apply Z.eqb_eq in Eu as ->. eapply count_setitem; [done..|].
    intros ->. by eapply binary_no_unknown. }
  (* the rest of the ray, from the state after this iteration *)
  assert (forall m, exists n' b',
    ray fuel dx dy (x + dx) (y + dy) m (set_belief_map b1 e)
      = Ok n' (set_belief_map b' e) /\
    rect (height e) (width e) b' /\
    scan_rel e (sees e dx dy (x + dx) (y + dy)) b1 b' /\
    (binary (true_map e) ->
     count_nonzero_ne b' UNKNOWN = count_nonzero_ne b1 UNKNOWN + (n' - m)))
    as Hrest.
  { intros m.
    destruct (IH (x + dx) (y + dy) m (set_belief_map b1 e)) as (n' & b' & H);
      [by split|lia| |by exists n', b'].
    intros _. change (ahead (set_belief_map b1 e)) with (ahead e).
    rewrite (ahead_next e dx dy _ _ Hdir). lia. }
  (* the ray stops at a wall *)
  assert (tv = WALL ->
    scan_rel e (sees e dx dy x y) (belief_map e) b1) as Hstop.
  { intros ->. eapply scan_rel_iff; [|exact Hobs].
    intros r c. rewrite sees_unfold. split; [by auto|].
    intros [_ [?|[? _]]]; [done|congruence]. }
  assert (forall b', tv <> WALL ->
    scan_rel e (sees e dx dy (x + dx) (y + dy)) b1 b' ->
    scan_rel e (sees e dx dy x y) (belief_map e) b') as Hgo.
  { intros b' Hnw Hb'. eapply scan_rel_iff; [|exact (scan_rel_compose _ _ _ _ _ _ Hobs Hb')].
    intros r c. rewrite (sees_unfold e dx dy x y). split.
    - intros [Heq|Hsees].
      + split; [exact Hin|by left].
      + split; [exact Hin|right]. split; [congruence|done].
    - intros [_ [Heq|[_ Hsees]]]; [by left|by right]. }
  destruct (s =? UNKNOWN) eqn:Eu.
  - rewrite Hb1. destruct (tv =? WALL) eqn:Ew.
    + apply Z.eqb_eq in Ew. exists (n + 1), b1.
      split_and!; [done|done|by apply Hstop|].
      intros Hbin. rewrite (Hcount1 Hbin). lia.
    + apply Z.eqb_neq in Ew.
      destruct (Hrest (n + 1)) as (n' & b' & Hray & Hrect & Hrel & Hcount).
      exists n', b'. split_and!; [done|done|by apply Hgo|].
      intros Hbin. rewrite (Hcount Hbin), (Hcount1 Hbin). lia.
  - subst b1. rewrite set_belief_map_same in Hrest.
    destruct (tv =? WALL) eqn:Ew.
    + apply Z.eqb_eq in Ew. exists n, (belief_map e).
      rewrite set_belief_map_same.
      split_and!; [done|done|by apply Hstop|intros; lia].
    + apply Z.eqb_neq in Ew.
      destruct (Hrest n) as (n' & b' & Hray & Hrect & Hrel & Hcount).
      exists n', b'. split_and!; [done|done|by apply Hgo|].
      intros Hbin. rewrite (Hcount Hbin). lia.
Qed.

(** ** The eight rays *)

Lemma for_each_cons {S A V} (a : A) l (body : A -> V -> M S V) v :
  for_each (a :: l) body v = bind (body a v) (for_each l body).
Proof. done. Qed.

Lemma lidar_fuel_enough e fuel dx dy x y :
  (lidar_fuel e <= fuel)%nat ->
  (0 < fuel)%nat /\
  (in_bounds e x y = true -> ahead e dx dy x y + 1 < Z.of_nat fuel).
Proof.
  unfold lidar_fuel. intros Hfuel. split; [lia|].
  intros Hin. pose proof (ahead_bound e dx dy x y Hin). lia.
Qed.

(** The inner loop, [for dy in [-1, 0, 1]], for a fixed [dx]. *)
Lemma lidar_row_correct fuel dx x y l n e :
  wf_maps e -> -1 <= dx <= 1 -> Forall (λ dy, -1 <= dy <= 1) l ->
  (lidar_fuel e <= fuel)%nat ->
  exists n' b',
    for_each l (fun dy n =>
      if (dx =? 0) && (dy =? 0) then ret n else ray fuel dx dy x y n) n e
      = Ok n' (set_belief_map b' e) /\
    rect (height e) (width e) b' /\
    scan_rel e (λ r c, exists dy, dy ∈ l /\ ray_dir dx dy /\ sees e dx dy x y r c)
      (belief_map e) b' /\
    (binary (true_map e) ->
     count_nonzero_ne b' UNKNOWN = count_nonzero_ne (belief_map e) UNKNOWN + (n' - n)).
Proof.
  intros Hwf Hdx Hl Hfuel. revert n e Hwf Hfuel.
  induction Hl as [|dy l Hdy Hl IH]; intros n e Hwf Hfuel.
  - exists n, (belief_map e). simpl. unfold ret. rewrite set_belief_map_same.
    split_and!; [done|apply Hwf| |intros; lia].
    eapply scan_rel_iff; [|apply scan_rel_refl].
    intros r c. split; [done|]. intros (dy & Hin & _). by apply elem_of_nil in Hin.
  - simpl. unfold bind at 1.
    destruct ((dx =? 0) && (dy =? 0)) eqn:Ez.
    + apply andb_true_iff in Ez as [E1 E2].
      apply Z.eqb_eq in E1, E2. subst dx dy.
      destruct (IH n e Hwf Hfuel) as (n' & b' & Hrun & Hrect & Hrel & Hcount).
      exists n', b'. split_and!; try done.
      eapply scan_rel_iff; [|exact Hrel].
      intros r c. split.
      * intros (dy & Hin & H). exists dy. split; [by right|done].
      * intros (dy & Hin & Hdir & H). exists dy. split; [|done].
        apply elem_of_cons in Hin as [->|Hin]; [|done].
        destruct Hdir as (_ & _ & Hne). by destruct Hne.
    + assert (ray_dir dx dy) as Hdir.
      { split; [lia|]. split; [lia|]. intros [-> ->]. done. }
      destruct (lidar_fuel_enough e fuel dx dy (x + dx) (y + dy) Hfuel) as [Hpos Hah].
      destruct (ray_correct dx dy fuel x y n e Hwf Hdir Hpos Hah)
        as (n1 & b1 & -> & Hrect1 & Hrel1 & Hcount1).
      destruct (IH n1 (set_belief_map b1 e)) as (n' & b' & Hrun & Hrect & Hrel & Hcount).
      { split; [apply Hwf|done]. }
      { done. }
      exists n', b'. split_and!; try done.
      * eapply scan_rel_iff; [|exact (scan_rel_compose _ _ _ _ _ _ Hrel1 Hrel)].
        intros r c. split.
        -- intros [H|(dy' & Hin & H)].
           ++ exists dy. split; [by left|done].
           ++ exists dy'. split; [by right|done].
        -- intros (dy' & Hin & Hd & H).
           apply elem_of_cons in Hin as [->|Hin]; [by left|right].
           by exists dy'.
      * intros Hbin. rewrite (Hcount Hbin). simpl. rewrite (Hcount1 Hbin). lia.
Qed.

(** The outer loop, [for dx in [-1, 0, 1]]. *)
Lemma lidar_rows_correct fuel x y l n e :
  wf_maps e -> Forall (λ dx, -1 <= dx <= 1) l ->
  (lidar_fuel e <= fuel)%nat ->
  exists n' b',
    for_each l (fun dx n =>
      for_each [-1; 0; 1] (fun dy n =>
        if (dx =? 0) && (dy =? 0) then ret n else ray fuel dx dy x y n) n) n e
      = Ok n' (set_belief_map b' e) /\
    rect (height e) (width e) b' /\
    scan_rel e (λ r c, exists dx, dx ∈ l /\
                 exists dy, dy ∈ [-1; 0; 1] /\ ray_dir dx dy /\ sees e dx dy x y r c)
      (belief_map e) b' /\
    (binary (true_map e) ->
     count_nonzero_ne b' UNKNOWN = count_nonzero_ne (belief_map e) UNKNOWN + (n' - n)).
Proof.
  intros Hwf Hl Hfuel. revert n e Hwf Hfuel.
  induction Hl as [|dx l Hdx Hl IH]; intros n e Hwf Hfuel.
  - exists n, (belief_map e). simpl. unfold ret. rewrite set_belief_map_same.
    split_and!; [done|apply Hwf| |intros; lia].
    eapply scan_rel_iff; [|apply scan_rel_refl].
    intros r c. split; [done|]. intros (dx & Hin & _). by apply elem_of_nil in Hin.
  - rewrite for_each_cons. unfold bind at 1. cbv beta.
    destruct (lidar_row_correct fuel dx x y [-1; 0; 1] n e Hwf Hdx)
      as (n1 & b1 & -> & Hrect1 & Hrel1 & Hcount1); [|done|].
    { repeat constructor; lia. }
    destruct (IH n1 (set_belief_map b1 e)) as (n' & b' & Hrun & Hrect & Hrel & Hcount).
    { split; [apply Hwf|done]. }
    { done. }
    exists n', b'. split_and!; try done.
    + eapply scan_rel_iff; [|exact (scan_rel_compose _ _ _ _ _ _ Hrel1 Hrel)].
      intros r c. split.
      * intros [H|(dx' & Hin & H)].
        -- exists dx. split; [by left|done].
        -- exists dx'. split; [by right|done].
      * intros (dx' & Hin & H).
        apply elem_of_cons in Hin as [->|Hin]; [by left|right].
        by exists dx'.
    + intros Hbin. rewrite (Hcount Hbin). simpl. rewrite (Hcount1 Hbin). lia.
Qed.

Lemma ray_dir_elem dx dy :
  ray_dir dx dy -> dx ∈ [-1; 0; 1] /\ dy ∈ [-1; 0; 1].
Proof.
  intros (Hx & Hy & _).
  assert (dx = -1 \/ dx = 0 \/ dx = 1) as [-> | [-> | ->]] by lia;
  assert (dy = -1 \/ dy = 0 \/ dy = 1) as [-> | [-> | ->]] by lia;
  split; repeat first [apply list_elem_of_here | apply list_elem_of_further].
Qed.

(** The scan returns, and observes exactly the cells seen from the agent. *)
Lemma lidar_correct fuel e :
  wf_maps e -> (lidar_fuel e <= fuel)%nat ->
  exists n b',
    lidar fuel e = Ok n (set_belief_map b' e) /\
    rect (height e) (width e) b' /\
    scan_rel e (seen e) (belief_map e) b' /\
    (binary (true_map e) ->
     count_nonzero_ne b' UNKNOWN = count_nonzero_ne (belief_map e) UNKNOWN + n).
Proof.
  intros Hwf Hfuel. unfold lidar, bind at 1, gets.
  destruct (agent_pos e) as [x y] eqn:Hp.
  destruct (lidar_rows_correct fuel x y [-1; 0; 1] 0 e Hwf)
    as (n & b' & Hrun & Hrect & Hrel & Hcount); [|done|].
  { repeat constructor; lia. }
  exists n, b'. split_and!; try done.
  - eapply scan_rel_iff; [|exact Hrel].
    intros r c. unfold seen. rewrite Hp. simpl. split.
    + intros (dx & _ & dy & _ & H). by exists dx, dy.
    + intros (dx & dy & Hdir & H). destruct (ray_dir_elem dx dy Hdir).
      exists dx. split; [done|]. by exists dy.
  - intros Hbin. rewrite (Hcount Hbin). lia.
Qed.

(** ** [move] and [step], case by case *)

Lemma move_unfold action e :
  move action e =
  let e1 := turned action e in
  match (if action =? 0 then candidate e1 else Some (agent_pos e1)) with
  | None => Raise IndexError e1
  | Some new_pos =>
      match getitem (true_map e1) (fst new_pos) (snd new_pos) with
      | None => Raise IndexError e1
      | Some cell =>
          if cell =? WALL then Ok true e1
          else Ok false (set_agent_pos new_pos e1)
      end
  end.
Proof.
  unfold move, turned, bind, get, index, raise, modify, ret.
  destruct (action =? 1) eqn:E1.
  { apply Z.eqb_eq in E1 as ->. simpl.
    destruct (getitem _ _ _) as [cell|]; [|done]. by destruct (cell =? WALL). }
  destruct (action =? 2) eqn:E2.
  { apply Z.eqb_eq in E2 as ->. simpl.
    destruct (getitem _ _ _) as [cell|]; [|done]. by destruct (cell =? WALL). }
  destruct (action =? 0); simpl.
  - destruct (candidate e) as [new_pos|]; [|done].
    destruct (getitem _ _ _) as [cell|]; [|done]. by destruct (cell =? WALL).
  - destruct (getitem _ _ _) as [cell|]; [|done]. by destruct (cell =? WALL).
Qed.

Lemma step_unfold action e :
  step action e =
  match move action e with
  | Ok is_collision e1 =>
      match update_belief_map_with_lidar e1 with
      | Ok n e2 =>
          if size (belief_map e2) =? 0 then Raise ZeroDivisionError e2
          else Ok (flatten (belief_map e2), reward_of is_collision n,
                   done_of (belief_map e2)) e2
      | Raise x e2 => Raise x e2
      | Diverge => Diverge
      end
  | Raise x e1 => Raise x e1
  | Diverge => Diverge
  end.
Proof.
  unfold step, bind. destruct (move action e) as [c e1|x e1|]; [|done..].
  destruct (update_belief_map_with_lidar e1) as [n e2|x e2|]; [|done..].
  unfold gets, coverage_of. by destruct (size (belief_map e2) =? 0).
Qed.

Lemma update_belief_map_with_lidar_correct e :
  wf_maps e ->
  exists n b',
    update_belief_map_with_lidar e = Ok n (set_belief_map b' e) /\
    rect (height e) (width e) b' /\
    scan_rel e (seen e) (belief_map e) b' /\
    (binary (true_map e) ->
     count_nonzero_ne b' UNKNOWN = count_nonzero_ne (belief_map e) UNKNOWN + n).
Proof.
  intros Hwf. unfold update_belief_map_with_lidar, bind, get.
  by apply lidar_correct.
Qed.

(** ** The start cell found by [reset] *)

Lemma where_in_row_spec v row c0 c :
  In c (where_in_row v row c0) ->
  c0 <= c /\ row !! Z.to_nat (c - c0) = Some v.
Proof.
  revert c0. induction row as [|x row IH]; intros c0; simpl; [done|].
  assert (In c (where_in_row v row (c0 + 1)) ->
          c0 <= c /\ (x :: row) !! Z.to_nat (c - c0) = Some v) as Hrest.
  { intros [Hle Hv]%IH. split; [lia|].
    replace (Z.to_nat (c - c0)) with (S (Z.to_nat (c - (c0 + 1)))) by lia. done. }
  destruct (x =? v) eqn:E; [|done].
  apply Z.eqb_eq in E as ->.
  intros [<-|H]; [|by apply Hrest].
  split; [lia|]. by replace (c0 - c0) with 0 by lia.
Qed.

Lemma argwhere_from_spec v a r0 r c :
  In (r, c) (argwhere_from v a r0) ->
  r0 <= r /\ 0 <= c /\
  exists row, a !! Z.to_nat (r - r0) = Some row /\ row !! Z.to_nat c = Some v.
Proof.
  revert r0. induction a as [|row a IH]; intros r0; simpl; [done|].
  rewrite in_app_iff, in_map_iff. intros [(c' & [= <- <-] & Hc)|H].
  - apply where_in_row_spec in Hc as [Hle Hv].
    split; [lia|]. split; [done|]. exists row.
    replace (r0 - r0) with 0 by lia. by rewrite Z.sub_0_r in Hv.
  - apply IH in H as (Hle & Hc & row' & Hrow & Hv).
    split; [lia|]. split; [done|]. exists row'. split; [|done].
    replace (Z.to_nat (r - r0)) with (S (Z.to_nat (r - (r0 + 1)))) by lia. done.
Qed.

Lemma argwhere_getitem a v r c :
  In (r, c) (argwhere a v) ->
  0 <= r /\ 0 <= c /\ getitem a r c = Some v.
Proof.
  intros (Hr & Hc & row & Hrow & Hv)%argwhere_from_spec.
  rewrite Z.sub_0_r in Hrow. split; [done|]. split; [done|].
  apply getitem_Some. exists (Z.to_nat r), row, (Z.to_nat c).
  apply lookup_lt_Some in Hrow as Hlt. apply lookup_lt_Some in Hv as Hlt'.
  split_and!; try done; apply norm_index_inside; lia.
Qed.

Lemma rect_in_bounds h w a r c v :
  rect h w a -> 0 <= r -> 0 <= c -> getitem a r c = Some v ->
  0 <= r < h /\ 0 <= c < w.
Proof.
  intros [Hlen Hrows] Hr Hc (i & row & j & Hi & Hrow & Hj & Hv)%getitem_Some.
  apply norm_index_lt in Hi as Hi'. apply norm_index_lt in Hj as Hj'.
  apply (norm_index_nonneg _ _ _ Hr) in Hi.
  apply (norm_index_nonneg _ _ _ Hc) in Hj.
  pose proof (Forall_lookup_1 _ _ _ _ Hrows Hrow) as Hw. simpl in Hw. lia.
Qed.

(** Two arrays of one shape with the same cells are equal. *)
Lemma rect_ext h w a a' :
  rect h w a -> rect h w a' ->
  (forall r c, 0 <= r < h -> 0 <= c < w -> getitem a' r c = getitem a r c) ->
  a' = a.
Proof.
  intros [Hlen Hrows] [Hlen' Hrows'] Heq.
  apply list_eq. intros i.
  destruct (a !! i) as [row|] eqn:Hrow.
  2:{ apply lookup_ge_None. apply lookup_ge_None in Hrow. lia. }
  apply lookup_lt_Some in Hrow as Hi.
  destruct (lookup_lt_is_Some_2 a' i) as [row' Hrow']; [lia|].
  rewrite Hrow'. f_equal.
  pose proof (Forall_lookup_1 _ _ _ _ Hrows Hrow) as Hw. simpl in Hw.
  pose proof (Forall_lookup_1 _ _ _ _ Hrows' Hrow') as Hw'. simpl in Hw'.
  apply list_eq. intros j.
  destruct (decide (j < length row)%nat) as [Hj|Hj].
  - specialize (Heq (Z.of_nat i) (Z.of_nat j) ltac:(lia) ltac:(lia)).
    unfold getitem in Heq.
    rewrite !norm_index_inside in Heq by lia. simpl in Heq.
    rewrite !Nat2Z.id in Heq. rewrite Hrow, Hrow' in Heq. simpl in Heq.
    rewrite !norm_index_inside in Heq by lia. simpl in Heq.
    by rewrite !Nat2Z.id in Heq.
  - rewrite (proj2 (lookup_ge_None row j)) by lia.
    apply lookup_ge_None. lia.
Qed.

(** ** The invariant of the object *)

Lemma scan_rel_scanned e b' :
  wf_maps e -> binary (true_map e) ->
  scan_rel e (seen e) (belief_map e) b' ->
  scanned (set_belief_map b' e).
Proof.
  intros [Htm Hbm] Hbin Hrel r c Hin Hseen. simpl.
  destruct (Hrel r c Hin) as (_ & Hkeep & Hnew & _).
  destruct (decide (getitem (belief_map e) r c = Some UNKNOWN)) as [Hu|Hk].
  - rewrite (Hnew Hseen Hu). by apply binary_no_unknown.
  - by rewrite (Hkeep Hk).
Qed.

(** A second scan from a scanned position finds nothing and changes nothing. *)
Lemma scanned_idle e :
  wf_maps e -> binary (true_map e) -> scanned e ->
  update_belief_map_with_lidar e = Ok 0 e.
Proof.
  intros Hwf Hbin Hsc.
  destruct (update_belief_map_with_lidar_correct e Hwf)
    as (n & b' & -> & Hrect & Hrel & Hcount).
  assert (b' = belief_map e) as ->.
  { apply (rect_ext (height e) (width e)); [apply Hwf|done|].
    intros r c Hr Hc.
    assert (in_bounds e r c = true) as Hin by (apply in_bounds_spec; lia).
    destruct (Hrel r c Hin) as (_ & Hkeep & _ & Hunseen).
    destruct (decide (getitem (belief_map e) r c = Some UNKNOWN)) as [Hu|Hk].
    - apply Hunseen. intros Hseen. by apply (Hsc r c Hin Hseen).
    - by apply Hkeep. }
  specialize (Hcount Hbin). rewrite set_belief_map_same.
  by replace n with 0 by lia.
Qed.

Lemma turned_inv action e : inv e -> inv (turned action e).
Proof.
  intros [Hm Hd Hf Hs Hsc]. unfold turned.
  destruct (action =? 1); [|destruct (action =? 2)]; try done.
  - split; try done. simpl. apply Z.mod_pos_bound. lia.
  - split; try done. simpl. apply Z.mod_pos_bound. lia.
Qed.

Lemma turned_0 e : turned 0 e = e.
Proof. done. Qed.

(** [move] raises only for a forward move whose candidate the ground truth
    cannot look up, and then nothing has changed. *)
Lemma move_outcome action e :
  inv e ->
  match move action e with
  | Ok is_collision e1 =>
      wf_maps e1 /\ 0 <= agent_dir e1 < 4 /\ on_free_cell e1 /\
      true_map e1 = true_map e /\ belief_map e1 = belief_map e /\
      (agent_pos e1 = agent_pos e -> agent_dir e1 = agent_dir (turned action e))
  | Raise x e1 => action = 0 /\ e1 = e /\ x = IndexError
  | Diverge => False
  end.
Proof.
  intros Hinv. rewrite move_unfold. cbv zeta.
  pose proof (turned_inv action e Hinv) as [Hm Hd [cell0 [Hc0 Hf]] Hs Hsc].
  assert (true_map (turned action e) = true_map e /\
          belief_map (turned action e) = belief_map e) as [Ht Hb].
  { unfold turned. by repeat case_match. }
  destruct (action =? 0) eqn:E0.
  - apply Z.eqb_eq in E0 as ->. rewrite turned_0 in *.
    destruct (candidate e) as [new_pos|]; [|done].
    destruct (getitem (true_map e) (fst new_pos) (snd new_pos)) as [cell|] eqn:Hc;
      [|done].
    destruct (cell =? WALL) eqn:Ew.
    + split_and!; try done; try lia. by exists cell0.
    + apply Z.eqb_neq in Ew. split_and!; try done; simpl; try lia. by exists cell.
  - rewrite Hc0. destruct (cell0 =? WALL) eqn:Ew.
    + by apply Z.eqb_eq in Ew.
    + split_and!; try done; simpl; try lia. by exists cell0.
Qed.

Lemma step_inv action e e' :
  inv e -> final_state (step action e) = Some e' -> inv e'.
Proof.
  intros Hinv. rewrite step_unfold.
  pose proof (move_outcome action e Hinv) as Hmove.
  destruct (move action e) as [c e1|x e1|]; [| |done].
  - destruct Hmove as (Hm & Hd & Hf & Ht & Hb & _).
    destruct (update_belief_map_with_lidar_correct e1 Hm)
      as (n & b' & -> & Hrect & Hrel & _).
    assert (inv (set_belief_map b' e1)) as Hinv'; [|by destruct (_ =? 0); intros [= <-]].
    split; simpl; try done.
    + split; [apply Hm|done].
    + rewrite Ht. apply Hinv.
    + intros Hbin. by apply scan_rel_scanned.
  - destruct Hmove as (_ & -> & _). by intros [= <-].
Qed.

Lemma reset_outcome e :
  rect (height e) (width e) (true_map e) -> 0 <= agent_dir e < 4 ->
  match reset e with
  | Ok obs e' =>
      inv e' /\ obs = flatten (belief_map e') /\
      true_map e' = true_map e /\ agent_dir e' = agent_dir e /\
      head (argwhere (true_map e) EMPTY) = Some (agent_pos e')
  | Raise x e' => argwhere (true_map e) EMPTY = [] /\ x = IndexError
  | Diverge => False
  end.
Proof.
  intros Htm Hd. unfold reset, bind, get, modify. simpl.
  destruct (argwhere (true_map e) EMPTY) as [|[r c] rest] eqn:Hstart; [done|].
  destruct (argwhere_getitem (true_map e) EMPTY r c) as (Hr & Hc & Hcell).
  { rewrite Hstart. by left. }
  destruct (rect_in_bounds _ _ _ _ _ _ Htm Hr Hc Hcell) as [Hr' Hc'].
  unfold belief_setitem, bind, gets, index, modify. simpl.
  destruct (setitem_defined (full (height e) (width e) UNKNOWN) r c UNKNOWN EMPTY)
    as [b1 Hb1]; [by apply full_getitem|].
  rewrite Hb1. unfold ret at 1. simpl.
  set (e1 := set_belief_map b1 _).
  assert (wf_maps e1) as Hwf1.
  { split; [done|]. simpl. eapply rect_setitem; [|done]. apply rect_full; lia. }
  destruct (update_belief_map_with_lidar_correct e1 Hwf1)
    as (n & b' & -> & Hrect & Hrel & _).
  unfold get_observation, bind, gets, ret. simpl.
  split_and!; try done.
  split; simpl; try done.
  - exists EMPTY. by split.
  - by rewrite Hstart.
  - intros Hbin. by apply (scan_rel_scanned e1).
Qed.

Lemma reset_inv e e' :
  inv e -> final_state (reset e) = Some e' -> inv e'.
Proof.
  intros Hinv. pose proof (reset_outcome e) as H.
  destruct (reset e) as [obs e1|x e1|]; [| |done].
  - intros [= <-]. apply H; apply Hinv.
  - destruct H as [H _]; [apply Hinv..|]. by destruct (inv_start e Hinv).
Qed.

(** ** Construction and the reachable states *)

Lemma loadtxt_rect rows h w a :
  loadtxt rows = inr ([h; w], a) ->
  a = rows /\ rect h w a /\ h <> 1 /\ w <> 1.
Proof.
  unfold loadtxt. destruct rows as [|row0 rest]; [done|].
  destruct (forallb (λ row, (length row =? length row0)%nat) (row0 :: rest))
    eqn:Hall; [|done].
  destruct (forallb (forallb int64) (row0 :: rest)); [|done]. cbv [andb].
  rewrite !filter_cons, filter_nil.
  destruct (decide (Z.of_nat (length (row0 :: rest)) ≠ 1)) as [Hh|Hh];
    destruct (decide (Z.of_nat (length row0) ≠ 1)) as [Hw|Hw]; try done.
  intros [= <- <- <-]. split_and!; try done. split; [done|].
  apply Forall_forall. intros row Hrow%list_elem_of_In.
  rewrite forallb_forall in Hall. specialize (Hall row Hrow).
  apply Nat.eqb_eq in Hall. by rewrite Hall.
Qed.

Lemma init_outcome rows :
  match init rows with
  | Built e => inv e /\ true_map e = rows /\ agent_dir e = 0
  | Failed x => True
  | Hung => False
  end.
Proof.
  unfold init.
  destruct (loadtxt rows) as [x|[shp a]] eqn:Hload; [done|].
  destruct shp as [|h [|w [|? ?]]]; try done.
  apply loadtxt_rect in Hload as (-> & Hrect & _).
  pose proof (reset_outcome (mkEnv rows h w 0 [] (0, 0)) Hrect) as H.
  destruct (reset _) as [obs e|x e|]; [|done|].
  - destruct H as (Hinv & _ & Ht & Hd & _); [simpl; lia|]. done.
  - apply H. simpl. lia.
Qed.

Lemma reachable_from_inv rows e :
  reachable_from rows e -> inv e /\ true_map e = rows.
Proof.
  induction 1 as [e Hinit|e e' _ [IH Ht] Hreset|e action e' _ [IH Ht] Hstep].
  - pose proof (init_outcome rows) as H. rewrite Hinit in H.
    split; apply H.
  - split; [by eapply reset_inv|].
    apply reset_same_truth in Hreset as [-> _]. done.
  - split; [by eapply step_inv|].
    apply step_episode_frame in Hstep as [-> _]. done.
Qed.

Lemma reachable_inv e : reachable e -> inv e.
Proof. intros [rows H]. by apply reachable_from_inv in H as [? _]. Qed.

(** ** More fuel never changes a result *)

Lemma ray_more_fuel fuel fuel' dx dy x y n e n' e' :
  ray fuel dx dy x y n e = Ok n' e' -> (fuel <= fuel')%nat ->
  ray fuel' dx dy x y n e = Ok n' e'.
Proof.
  revert fuel' x y n e. induction fuel as [|fuel IH]; intros fuel' x y n e; [done|].
  destruct fuel' as [|fuel']; [lia|]. rewrite !ray_S. intros H Hle.
  destruct (in_bounds e (x + dx) (y + dy)); [|done].
  destruct (getitem (true_map e) (x + dx) (y + dy)) as [tv|]; [|done].
  destruct (getitem (belief_map e) (x + dx) (y + dy)) as [s|]; [|done].
  destruct (s =? UNKNOWN).
  - destruct (setitem (belief_map e) (x + dx) (y + dy) tv) as [b'|]; [|done].
    destruct (tv =? WALL); [done|]. apply IH; [done|lia].
  - destruct (tv =? WALL); [done|]. apply IH; [done|lia].
Qed.

Lemma for_each_more {S A V} (l : list A) (f g : A -> V -> M S V) v s v' s' :
  (forall a v s v' s', f a v s = Ok v' s' -> g a v s = Ok v' s') ->
  for_each l f v s = Ok v' s' -> for_each l g v s = Ok v' s'.
Proof.
  intros Hfg. revert v s. induction l as [|a l IH]; intros v s; simpl; [done|].
  unfold bind. destruct (f a v s) as [v1 s1| |] eqn:Hf; [|done..].
  rewrite (Hfg _ _ _ _ _ Hf). apply IH.
Qed.

Lemma lidar_more_fuel fuel fuel' e n e' :
  lidar fuel e = Ok n e' -> (fuel <= fuel')%nat -> lidar fuel' e = Ok n e'.
Proof.
  unfold lidar, bind, gets. destruct (agent_pos e) as [x y].
  intros H Hle. revert H. apply for_each_more. intros dx.
  intros v s v' s'. apply for_each_more. intros dy v0 s0 v0' s0'.
  destruct ((dx =? 0) && (dy =? 0)); [done|].
  intros H. by eapply ray_more_fuel.
Qed.

(** * The claims of the specification *)

Lemma room_start_built : init room = Built room_start.
Proof. reflexivity. Qed.

Lemma field_start_built : init field = Built field_start.
Proof. reflexivity. Qed.

Lemma room_start_reachable : reachable room_start.
Proof. exists room. apply reach_init. reflexivity. Qed.

Lemma field_start_reachable : reachable field_start.
Proof. exists field. apply reach_init. reflexivity. Qed.

Lemma room_start_wf : wf_maps room_start.
Proof. apply reachable_inv, room_start_reachable. Qed.

Ltac solve_binary :=
  simpl; repeat first [apply Forall_nil_2 | apply Forall_cons_2];
  first [by left | by right].

Lemma room_binary : binary (true_map room_start).
Proof. solve_binary. Qed.

(** ** C1 *)

(** C1 — Monotonic discovery. A cell of the belief map whose status is not
    Unknown keeps its value through every scan, through every step, and
    through any sequence of steps (the remainder of the episode), whether the
    calls return or raise. Hence a scan only ever rewrites cells that are
    Unknown when it reaches them. *)
Theorem monotonic_discovery (e : env) (r c v : Z) :
  getitem (belief_map e) r c = Some v -> v <> UNKNOWN ->
  (forall e', final_state (update_belief_map_with_lidar e) = Some e' ->
     getitem (belief_map e') r c = Some v) /\
  (forall action e', final_state (step action e) = Some e' ->
     getitem (belief_map e') r c = Some v) /\
  (forall actions e', final_state (steps actions e) = Some e' ->
     getitem (belief_map e') r c = Some v).
Proof.
  intros Hv Hne. split_and!.
  - intros e' H. apply update_belief_map_with_lidar_scan_frame in H.
    destruct H as (b' & -> & Hk). by apply Hk.
  - intros action e' H. apply step_episode_frame in H.
    destruct H as (_ & _ & _ & Hk). by apply Hk.
  - intros actions e' H. apply steps_episode_frame in H.
    destruct H as (_ & _ & _ & Hk). by apply Hk.
Qed.

Lemma monotonic_discovery_witness :
  (forall e', final_state (update_belief_map_with_lidar room_start) = Some e' ->
     getitem (belief_map e') 1 2 = Some 0) /\
  (forall action e', final_state (step action room_start) = Some e' ->
     getitem (belief_map e') 1 2 = Some 0) /\
  (forall actions e', final_state (steps actions room_start) = Some e' ->
     getitem (belief_map e') 1 2 = Some 0).
Proof.
  apply (monotonic_discovery room_start 1 2 0); [reflexivity|].
  unfold UNKNOWN. lia.
Defined.

(** ** C2 *)

(** C2 — Raycast scan correctness. From any agent position the scan returns.
    A cell of the map is seen when it lies [k >= 1] steps from the agent
    along one of the eight direction vectors, every cell up to it on that ray
    is inside the map and none before it is a wall (so a ray ends at the
    boundary or with the first wall, and has no other range limit). After the
    scan a seen cell that was Unknown holds the true cell kind, every other
    cell is unchanged, and on a 0/1 map the returned count is the number of
    cells that left Unknown. *)
Theorem scan_correct (e : env) :
  wf_maps e ->
  exists n b',
    update_belief_map_with_lidar e = Ok n (set_belief_map b' e) /\
    (forall r c, in_bounds e r c = true ->
       (seen e r c -> getitem (belief_map e) r c = Some UNKNOWN ->
        getitem b' r c = getitem (true_map e) r c) /\
       (getitem (belief_map e) r c <> Some UNKNOWN ->
        getitem b' r c = getitem (belief_map e) r c) /\
       (~ seen e r c -> getitem b' r c = getitem (belief_map e) r c)) /\
    (binary (true_map e) ->
     n = count_nonzero_ne b' UNKNOWN - count_nonzero_ne (belief_map e) UNKNOWN).
Proof.
  intros Hwf.
  destruct (update_belief_map_with_lidar_correct e Hwf)
    as (n & b' & Hrun & _ & Hrel & Hcount).
  exists n, b'. split_and!; [done| |].
  - intros r c Hin. destruct (Hrel r c Hin) as (_ & ? & ? & ?). done.
  - intros Hbin. specialize (Hcount Hbin). lia.
Qed.

Lemma scan_correct_witness :
  exists n b',
    update_belief_map_with_lidar room_start = Ok n (set_belief_map b' room_start) /\
    (forall r c, in_bounds room_start r c = true ->
       (seen room_start r c -> getitem (belief_map room_start) r c = Some UNKNOWN ->
        getitem b' r c = getitem (true_map room_start) r c) /\
       (getitem (belief_map room_start) r c <> Some UNKNOWN ->
        getitem b' r c = getitem (belief_map room_start) r c) /\
       (~ seen room_start r c ->
        getitem b' r c = getitem (belief_map room_start) r c)) /\
    (binary (true_map room_start) ->
     n = count_nonzero_ne b' UNKNOWN
         - count_nonzero_ne (belief_map room_start) UNKNOWN).
Proof.
  apply (scan_correct room_start).
  split; (split; [reflexivity|repeat constructor]).
Defined.

(** ** C9 *)

(** C9 — Scan termination. On a finite map (arrays of the recorded shape)
    every ray cast from a cell of the map returns within [max height width]
    iterations of its loop, and the whole scan returns: with one more
    iteration per ray than the longer side of the map no ray runs out, from
    any position, and no larger fuel changes the result. *)
Theorem scan_terminates (e : env) :
  wf_maps e ->
  (forall dx dy x y n, ray_dir dx dy -> in_bounds e x y = true ->
     exists n' e', forall fuel,
       (Z.to_nat (Z.max (height e) (width e)) <= fuel)%nat ->
       ray fuel dx dy x y n e = Ok n' e') /\
  (exists n e',
     update_belief_map_with_lidar e = Ok n e' /\
     forall fuel, (lidar_fuel e <= fuel)%nat -> lidar fuel e = Ok n e').
Proof.
  intros Hwf. split.
  - intros dx dy x y n Hdir Hin.
    pose proof (ahead_bound e dx dy x y Hin) as Hb.
    pose proof (ahead_nonneg e dx dy x y Hin) as Hnn.
    destruct (ray_correct dx dy (Z.to_nat (Z.max (height e) (width e))) x y n e)
      as (n' & b' & Hray & _); [done|done|lia| |].
    { intros _. rewrite (ahead_next e dx dy x y Hdir). lia. }
    exists n', (set_belief_map b' e). intros fuel Hfuel.
    by apply (ray_more_fuel _ _ _ _ _ _ _ _ _ _ Hray).
  - destruct (update_belief_map_with_lidar_correct e Hwf) as (n & b' & Hrun & _).
    exists n, (set_belief_map b' e). split; [done|].
    intros fuel Hfuel. by apply (lidar_more_fuel (lidar_fuel e)).
Qed.

Lemma scan_terminates_witness :
  (forall dx dy x y n, ray_dir dx dy -> in_bounds room_start x y = true ->
     exists n' e', forall fuel,
       (Z.to_nat (Z.max (height room_start) (width room_start)) <= fuel)%nat ->
       ray fuel dx dy x y n room_start = Ok n' e') /\
  (exists n e',
     update_belief_map_with_lidar room_start = Ok n e' /\
     forall fuel, (lidar_fuel room_start <= fuel)%nat ->
       lidar fuel room_start = Ok n e').
Proof.
  apply (scan_terminates room_start).
  split; (split; [reflexivity|repeat constructor]).
Defined.

(** ** C3 *)

Lemma step_reports_intro action e c e1 :
  wf_maps e1 -> 0 < height e1 /\ 0 < width e1 ->
  move action e = Ok c e1 ->
  step_reports action e c (agent_pos e1).
Proof.
  intros Hwf [Hh Hw] Hmove.
  destruct (update_belief_map_with_lidar_correct e1 Hwf)
    as (n & b' & Hrun & Hrect & _).
  exists e1, n, (set_belief_map b' e1). split_and!; try done.
  rewrite step_unfold, Hmove, Hrun. simpl.
  by rewrite (size_nonzero _ _ _ Hrect Hh Hw).
Qed.

Lemma candidate_valid e : 0 <= agent_dir e < 4 -> is_Some (candidate e).
Proof.
  intros Hd. unfold candidate, displacement.
  rewrite norm_index_inside by (simpl; lia). simpl.
  assert (agent_dir e = 0 \/ agent_dir e = 1 \/ agent_dir e = 2 \/ agent_dir e = 3)
    as [-> | [-> | [-> | ->]]] by lia; by eexists.
Qed.

Lemma move_forward e cand cell :
  candidate e = Some cand ->
  getitem (true_map e) (fst cand) (snd cand) = Some cell ->
  move 0 e = if cell =? WALL then Ok true e else Ok false (set_agent_pos cand e).
Proof.
  intros Hcand Hcell. rewrite move_unfold. cbv zeta. rewrite turned_0.
  change (0 =? 0) with true. cbv iota. by rewrite Hcand, Hcell.
Qed.

Lemma move_forward_raises e cand :
  candidate e = Some cand ->
  getitem (true_map e) (fst cand) (snd cand) = None ->
  move 0 e = Raise IndexError e.
Proof.
  intros Hcand Hcell. rewrite move_unfold. cbv zeta. rewrite turned_0.
  change (0 =? 0) with true. cbv iota. by rewrite Hcand, Hcell.
Qed.

Lemma move_in_place action e cell :
  action <> 0 ->
  getitem (true_map e) (fst (agent_pos e)) (snd (agent_pos e)) = Some cell ->
  move action e =
  if cell =? WALL then Ok true (turned action e)
  else Ok false (set_agent_pos (agent_pos e) (turned action e)).
Proof.
  intros Ha%Z.eqb_neq Hcell. rewrite move_unfold. cbv zeta. rewrite Ha.
  assert (true_map (turned action e) = true_map e /\
          agent_pos (turned action e) = agent_pos e) as [-> ->].
  { unfold turned. by repeat case_match. }
  by rewrite Hcell.
Qed.

Lemma set_agent_pos_same e : set_agent_pos (agent_pos e) e = e.
Proof. by destruct e. Qed.

Lemma field_east_reachable : reachable field_east.
Proof.
  exists field. apply (reach_step field field_start 0).
  - apply reach_init. reflexivity.
  - reflexivity.
Qed.

(** C3 — Forward-move collision behaviour, on the field without walls. The
    code does not do, at every Forward step, one of the two things the claim
    says. After one step forward from the start the agent stands on the last
    column and faces east; the candidate cell is [(0, 2)], which the ground
    truth does not mark as a wall; the Forward step neither moves the agent
    to the candidate nor reports a collision: it raises IndexError. *)
Theorem forward_step_raises :
  init field = Built field_start /\
  step 0 field_start = Ok ([0; 0; 0; 0], PyFloat (-0.1)%float, true) field_east /\
  reachable field_east /\
  candidate field_east = Some (0, 2) /\
  is_wall (true_map field_east) (0, 2) = false /\
  step 0 field_east = Raise IndexError field_east /\
  ~ forward_claim field_east.
Proof.
  split_and!; try reflexivity.
  - apply field_east_reachable.
  - intros (cand & _ & H).
    destruct (is_wall _ _); destruct H as (e1 & n & e' & Hmove & _);
      vm_compute in Hmove; discriminate.
Qed.

(** ** C10 *)

Lemma getitem_wrap_row h w a c :
  rect h w a -> 0 < h -> getitem a (-1) c = getitem a (h - 1) c.
Proof.
  intros [Hlen _] Hh. unfold getitem.
  rewrite norm_index_wrap by lia. rewrite norm_index_inside by lia.
  by replace (Z.to_nat (-1 + Z.of_nat (length a))) with (Z.to_nat (h - 1)) by lia.
Qed.

Lemma getitem_wrap_col h w a r :
  rect h w a -> 0 <= r < h -> 0 < w -> getitem a r (-1) = getitem a r (w - 1).
Proof.
  intros [Hlen Hrows] Hr Hw. unfold getitem.
  rewrite norm_index_inside by lia. simpl.
  destruct (a !! Z.to_nat r) as [row|] eqn:Hrow; [|done]. simpl.
  pose proof (Forall_lookup_1 _ _ _ _ Hrows Hrow) as Hlw. simpl in Hlw.
  rewrite norm_index_wrap by lia. rewrite norm_index_inside by lia.
  by replace (Z.to_nat (-1 + Z.of_nat (length row))) with (Z.to_nat (w - 1)) by lia.
Qed.

Lemma getitem_above h w a r c :
  rect h w a -> h <= r \/ w <= c -> getitem a r c = None.
Proof.
  intros [Hlen Hrows] Hrc. unfold getitem.
  destruct (norm_index (length a) r) as [i|] eqn:Hi; [|done]. simpl.
  destruct (a !! i) as [row|] eqn:Hrow; [|done]. simpl.
  pose proof (Forall_lookup_1 _ _ _ _ Hrows Hrow) as Hlw. simpl in Hlw.
  destruct Hrc as [Hr|Hc].
  - rewrite norm_index_above in Hi by lia. done.
  - rewrite norm_index_above by lia. done.
Qed.

(** C10 — Out-of-bounds forward behaviour. [step] tests the candidate cell
    through array indexing alone. On the top row facing north the candidate
    row is -1: the wall test reads the cell of the bottom row in the same
    column, and when that cell is not a wall the stored position becomes
    [(-1, c)]. On the left column facing west the candidate column is -1: the
    test reads the last column of the same row and the position can become
    [(r, -1)]. A candidate whose row is at least the height or whose column
    is at least the width makes [step] raise IndexError, with nothing
    changed. *)
Theorem forward_out_of_bounds (e : env) :
  wf_maps e ->
  (forall c, agent_pos e = (0, c) -> agent_dir e = 1 -> in_bounds e 0 c = true ->
     exists cell,
       candidate e = Some (-1, c) /\
       getitem (true_map e) (-1) c = Some cell /\
       getitem (true_map e) (height e - 1) c = Some cell /\
       if cell =? WALL then step_reports 0 e true (0, c)
       else step_reports 0 e false (-1, c)) /\
  (forall r, agent_pos e = (r, 0) -> agent_dir e = 2 -> in_bounds e r 0 = true ->
     exists cell,
       candidate e = Some (r, -1) /\
       getitem (true_map e) r (-1) = Some cell /\
       getitem (true_map e) r (width e - 1) = Some cell /\
       if cell =? WALL then step_reports 0 e true (r, 0)
       else step_reports 0 e false (r, -1)) /\
  (forall r c, candidate e = Some (r, c) -> height e <= r \/ width e <= c ->
     step 0 e = Raise IndexError e).
Proof.
  intros Hwf. pose proof Hwf as [Htm _]. split_and!.
  - intros c Hpos Hdir [Hr Hc]%in_bounds_spec.
    assert (candidate e = Some (-1, c)) as Hcand.
    { unfold candidate. rewrite Hdir, Hpos. simpl. do 2 f_equal. lia. }
    destruct (rect_getitem _ _ (true_map e) (height e - 1) c Htm) as [cell Hcell];
      [lia|lia|].
    assert (getitem (true_map e) (-1) c = Some cell) as Hwrap.
    { by rewrite (getitem_wrap_row _ _ _ _ Htm) by lia. }
    exists cell. split_and!; try done.
    pose proof (move_forward e (-1, c) cell Hcand Hwrap) as Hmove.
    assert (0 < height e /\ 0 < width e) as Hdims by lia.
    destruct (cell =? WALL).
    + rewrite <- Hpos. by apply step_reports_intro.
    + by apply (step_reports_intro 0 e false (set_agent_pos (-1, c) e)).
  - intros r Hpos Hdir [Hr Hc]%in_bounds_spec.
    assert (candidate e = Some (r, -1)) as Hcand.
    { unfold candidate. rewrite Hdir, Hpos. simpl. do 2 f_equal. lia. }
    destruct (rect_getitem _ _ (true_map e) r (width e - 1) Htm) as [cell Hcell];
      [lia|lia|].
    assert (getitem (true_map e) r (-1) = Some cell) as Hwrap.
    { by rewrite (getitem_wrap_col _ _ _ _ Htm) by lia. }
    exists cell. split_and!; try done.
    pose proof (move_forward e (r, -1) cell Hcand Hwrap) as Hmove.
    assert (0 < height e /\ 0 < width e) as Hdims by lia.
    destruct (cell =? WALL).
    + rewrite <- Hpos. by apply step_reports_intro.
    + by apply (step_reports_intro 0 e false (set_agent_pos (r, -1) e)).
  - intros r c Hcand Hout.
    pose proof (getitem_above _ _ _ r c Htm Hout) as Hnone.
    rewrite step_unfold. by rewrite (move_forward_raises e (r, c) Hcand Hnone).
Qed.

Lemma forward_out_of_bounds_witness :
  (forall c, agent_pos field_north = (0, c) -> agent_dir field_north = 1 ->
     in_bounds field_north 0 c = true ->
     exists cell,
       candidate field_north = Some (-1, c) /\
       getitem (true_map field_north) (-1) c = Some cell /\
       getitem (true_map field_north) (height field_north - 1) c = Some cell /\
       if cell =? WALL then step_reports 0 field_north true (0, c)
       else step_reports 0 field_north false (-1, c)) /\
  (forall r, agent_pos field_north = (r, 0) -> agent_dir field_north = 2 ->
     in_bounds field_north r 0 = true ->
     exists cell,
       candidate field_north = Some (r, -1) /\
       getitem (true_map field_north) r (-1) = Some cell /\
       getitem (true_map field_north) r (width field_north - 1) = Some cell /\
       if cell =? WALL then step_reports 0 field_north true (r, 0)
       else step_reports 0 field_north false (r, -1)) /\
  (forall r c, candidate field_north = Some (r, c) ->
     height field_north <= r \/ width field_north <= c ->
     step 0 field_north = Raise IndexError field_north).
Proof.
  apply (forward_out_of_bounds field_north).
  split; (split; [reflexivity|repeat constructor]).
Defined.

(** ** C4 *)

Lemma reward_of_formula collided n :
  reward_of collided n = PyFloat (reward_formula collided n).
Proof. by destruct collided. Qed.

Lemma unit_product_table_spec N k :
  unit_product_table N = true -> 0 <= k <= N ->
  (float_of_int k * 1.0)%float = float_of_int k.
Proof.
  unfold unit_product_table. rewrite forallb_forall. intros H Hk.
  apply FloatAxioms.Leibniz.eqb_spec, H, list_elem_of_In, elem_of_seqZ. lia.
Qed.

Lemma unit_product_table_4096 : unit_product_table 4096 = true.
Proof. vm_compute. reflexivity. Qed.

Lemma unit_product k :
  0 <= k <= 4096 -> (float_of_int k * 1.0)%float = float_of_int k.
Proof. apply unit_product_table_spec, unit_product_table_4096. Qed.

(** C4 — Reward decomposition. The reward that a step returns is the float
    (-5.0 if the move collided, else 0.0) + n * 1.0 - 0.1, where n is the
    count returned by that step's scan. A step without collision that
    discovers nothing yields -0.1 exactly; a colliding step that discovers k
    cells yields -5.0 + k * 1.0 - 0.1, which for k up to 4096 is the float
    -5.0 + k - 0.1. *)
Theorem reward_decomposition (action : Z) (e e' : env) obs reward done :
  step action e = Ok (obs, reward, done) e' ->
  (exists is_collision e1 n,
     move action e = Ok is_collision e1 /\
     update_belief_map_with_lidar e1 = Ok n e' /\
     reward = PyFloat (reward_formula is_collision n)) /\
  reward_of false 0 = PyFloat (-0.1)%float /\
  (forall k, reward_of true k = PyFloat (-5.0 + float_of_int k * 1.0 - 0.1)%float) /\
  (forall k, 0 <= k <= 4096 ->
     reward_of true k = PyFloat (-5.0 + float_of_int k - 0.1)%float).
Proof.
  rewrite step_unfold. intros Hstep. split_and!; [|done|done|].
  2:{ intros k Hk. rewrite reward_of_formula. unfold reward_formula.
      by rewrite (unit_product k Hk). }
  destruct (move action e) as [c e1| |] eqn:Hmove; [|done..].
  destruct (update_belief_map_with_lidar e1) as [n e2| |] eqn:Hscan; [|done..].
  destruct (size (belief_map e2) =? 0); [done|].
  injection Hstep as <- <- <- <-.
  exists c, e1, n. split_and!; [done|done|]. apply reward_of_formula.
Qed.

Lemma reward_decomposition_witness :
  (exists is_collision e1 n,
     move 0 room_start = Ok is_collision e1 /\
     update_belief_map_with_lidar e1 = Ok n (set_agent_pos (1, 2)
       (set_belief_map
          [[ 1;  1;  1;  1; -1];
           [ 1;  0;  0;  0;  1];
           [ 1;  0;  0;  0; -1];
           [ 1;  0;  0;  0;  1];
           [-1;  1;  1; -1;  1]] room_start)) /\
     PyFloat 5.9%float = PyFloat (reward_formula is_collision n)) /\
  reward_of false 0 = PyFloat (-0.1)%float /\
  (forall k, reward_of true k = PyFloat (-5.0 + float_of_int k * 1.0 - 0.1)%float) /\
  (forall k, 0 <= k <= 4096 ->
     reward_of true k = PyFloat (-5.0 + float_of_int k - 0.1)%float).
Proof.
  apply (reward_decomposition 0 room_start _
           [1; 1; 1; 1; -1; 1; 0; 0; 0; 1; 1; 0; 0; 0; -1; 1; 0; 0; 0; 1;
            -1; 1; 1; -1; 1]
           (PyFloat 5.9%float) false).
  reflexivity.
Defined.

(** ** C5 *)

Lemma threshold_table_400 : threshold_table 400 = true.
Proof. vm_compute. reflexivity. Qed.

Lemma threshold_table_spec N s c :
  threshold_table N = true -> 1 <= s <= N -> 0 <= c <= s ->
  PrimFloat.ltb 0.95 (py_truediv c s) = (19 * s <? 20 * c).
Proof.
  unfold threshold_table. rewrite forallb_forall. intros H Hs Hc.
  specialize (H s). rewrite forallb_forall in H.
  apply eqb_prop, H.
  - apply list_elem_of_In, elem_of_seqZ. lia.
  - apply list_elem_of_In, elem_of_seqZ. lia.
Qed.

Lemma threshold_exact s c :
  1 <= s <= 400 -> 0 <= c <= s ->
  PrimFloat.ltb 0.95 (py_truediv c s) = (19 * s <? 20 * c).
Proof. apply threshold_table_spec, threshold_table_400. Qed.

Lemma rect_flatten_length h w a :
  rect h w a -> 0 <= w -> Z.of_nat (length (flatten a)) = h * w.
Proof.
  intros [<- Hrows] Hw. unfold flatten.
  induction Hrows as [|row a Hrow Hrows IH]; simpl; [lia|].
  rewrite length_app. lia.
Qed.

Lemma count_le_size h w a v :
  rect h w a -> 0 < h -> 0 <= count_nonzero_ne a v <= size a.
Proof.
  intros Hrect Hh. rewrite (rect_size h w a Hrect Hh).
  assert (0 <= w) as Hw.
  { destruct Hrect as [Hlen Hrows]. destruct a as [|row a]; simpl in *; [lia|].
    apply Forall_cons_1 in Hrows as [Hw _]. lia. }
  rewrite <- (rect_flatten_length h w a Hrect Hw).
  unfold count_nonzero_ne. pose proof (length_filter (λ x, x ≠ v) (flatten a)). lia.
Qed.

(** C5 — Termination threshold. The done flag of a step is the float test
    [0.95 < coverage] on the belief map left by that step's scan, and depends
    on nothing else (no step counter exists). At coverage exactly 0.95 it is
    false. On maps of up to 400 cells the test is exact: done holds precisely
    when known / size > 19 / 20. *)
Theorem termination_threshold (action : Z) (e e' : env) obs reward done :
  reachable e ->
  step action e = Ok (obs, reward, done) e' ->
  done = PrimFloat.ltb 0.95 (coverage (belief_map e')) /\
  (coverage (belief_map e') = 0.95%float -> done = false) /\
  (size (belief_map e') <= 400 ->
   (done = true <->
    19 * size (belief_map e') < 20 * count_nonzero_ne (belief_map e') UNKNOWN)).
Proof.
  intros Hreach Hstep.
  assert (inv e') as Hinv'.
  { apply (step_inv action e); [by apply reachable_inv|]. by rewrite Hstep. }
  rewrite step_unfold in Hstep.
  destruct (move action e) as [c e1| |]; [|done..].
  destruct (update_belief_map_with_lidar e1) as [n e2| |]; [|done..].
  destruct (size (belief_map e2) =? 0); [done|].
  injection Hstep as <- <- <- <-.
  split_and!; [done| |].
  - unfold done_of. by intros ->.
  - intros Hsmall.
    destruct (inv_maps _ Hinv') as [Htm Hbm].
    destruct (inv_free _ Hinv') as (cell & Hcell & _).
    assert (0 < height e2) as Hh.
    { destruct (decide (0 < height e2)) as [|Hn]; [done|].
      destruct Htm as [Hlen _].
      apply getitem_Some in Hcell as (i & row & _ & Hi & _).
      apply norm_index_lt in Hi. lia. }
    pose proof (count_le_size _ _ _ UNKNOWN Hbm Hh) as Hcount.
    assert (0 < size (belief_map e2)) as Hpos.
    { rewrite (rect_size _ _ _ Hbm Hh).
      destruct Htm as [Hlen Hrows].
      apply getitem_Some in Hcell as (i & row & j & _ & Hrow & Hj & _).
      pose proof (Forall_lookup_1 _ _ _ _ Hrows Hrow) as Hw. simpl in Hw.
      apply norm_index_lt in Hj. apply Z.mul_pos_pos; lia. }
    unfold done_of, coverage. rewrite threshold_exact by lia.
    apply Z.ltb_lt.
Qed.

Lemma termination_threshold_witness :
  true = PrimFloat.ltb 0.95 (coverage (belief_map field_north)) /\
  (coverage (belief_map field_north) = 0.95%float -> true = false) /\
  (size (belief_map field_north) <= 400 ->
   (true = true <->
    19 * size (belief_map field_north)
    < 20 * count_nonzero_ne (belief_map field_north) UNKNOWN)).
Proof.
  apply (termination_threshold 1 field_start field_north [0; 0; 0; 0]
           (PyFloat (-0.1)%float) true).
  - exists field. apply reach_init. reflexivity.
  - reflexivity.
Defined.

(** Nineteen known cells out of twenty: the coverage is the float 0.95 and
    the episode is not done; the twentieth cell ends it. *)
Example done_at_threshold :
  let b19 := [[0; 0; 0; 0; 0]; [0; 1; 0; 1; 0]; [0; 0; 0; 0; 0]; [1; 0; 0; 0; -1]] in
  let b20 := [[0; 0; 0; 0; 0]; [0; 1; 0; 1; 0]; [0; 0; 0; 0; 0]; [1; 0; 0; 0; 1]] in
  coverage b19 = 0.95%float /\ done_of b19 = false /\ done_of b20 = true.
Proof. by repeat split. Qed.

(** ** C6 *)

(** A step that is not a forward move, from a state the object can reach on
    a 0/1 map: the scan finds nothing new, since the position was scanned by
    the call that led there. *)
Lemma step_in_place action e :
  reachable e -> binary (true_map e) -> action <> 0 ->
  step action e =
  Ok (flatten (belief_map e), PyFloat (-0.1)%float, done_of (belief_map e))
     (turned action e).
Proof.
  intros Hinv%reachable_inv Hbin Ha.
  destruct (inv_free e Hinv) as (cell & Hcell & Hfree%Z.eqb_neq).
  rewrite step_unfold, (move_in_place action e cell Ha Hcell), Hfree.
  assert (true_map (turned action e) = true_map e /\
          belief_map (turned action e) = belief_map e /\
          agent_pos (turned action e) = agent_pos e) as (Ht & Hb & Hp).
  { unfold turned. by repeat case_match. }
  rewrite <- Hp, set_agent_pos_same.
  destruct (getitem_dims _ _ _ _ _ _ (proj1 (inv_maps e Hinv)) Hcell) as [Hh Hw].
  rewrite scanned_idle.
  - rewrite Hb, (size_nonzero _ _ _ (proj2 (inv_maps e Hinv)) Hh Hw). done.
  - apply (turned_inv action e Hinv).
  - by rewrite Ht.
  - apply (turned_inv action e Hinv). by rewrite Ht.
Qed.

(** No step counter: the agent can turn on the spot for any number of steps,
    and the belief map, hence the done flag, stays what it was. *)
Lemma turning_forever n e :
  reachable e -> binary (true_map e) ->
  exists e',
    steps (replicate n 1) e = Ok tt e' /\
    reachable e' /\ belief_map e' = belief_map e /\ agent_pos e' = agent_pos e.
Proof.
  revert e. induction n as [|n IH]; intros e Hreach Hbin.
  - by exists e.
  - assert (1 <> 0) as H10 by lia.
    pose proof (step_in_place 1 e Hreach Hbin H10) as Hstep.
    destruct (IH (turned 1 e)) as (e' & Hrun & Hreach' & Hb & Hp).
    + destruct Hreach as [rows Hreach]. exists rows.
      apply (reach_step rows e 1); [done|]. by rewrite Hstep.
    + done.
    + exists e'. split_and!; try done.
      unfold steps in *. simpl. unfold bind at 1 2. by rewrite Hstep.
Qed.

(** C6, as amended — Invalid actions. [step] does not validate the action
    code. In every state the object can reach, a code outside {0, 1, 2} is a
    step in place: [step] returns normally, without a collision, and leaves
    the position and the orientation unchanged; on a 0/1 map it returns the
    current observation, the reward -0.1 and the current done flag, and the
    belief map, hence the coverage, is unchanged as well. *)
Theorem invalid_action_is_noop (action : Z) (e : env) :
  reachable e ->
  action <> 0 -> action <> 1 -> action <> 2 ->
  (exists n b',
     update_belief_map_with_lidar e = Ok n (set_belief_map b' e) /\
     step action e =
     Ok (flatten b', reward_of false n, done_of b') (set_belief_map b' e)) /\
  (binary (true_map e) ->
   step action e =
   Ok (flatten (belief_map e), PyFloat (-0.1)%float, done_of (belief_map e)) e).
Proof.
  intros Hreach H0 H1 H2.
  assert (turned action e = e) as Hturned.
  { unfold turned. apply Z.eqb_neq in H1, H2. by rewrite H1, H2. }
  split.
  - pose proof (reachable_inv e Hreach) as Hinv.
    destruct (inv_free e Hinv) as (cell & Hcell & Hfree%Z.eqb_neq).
    destruct (getitem_dims _ _ _ _ _ _ (proj1 (inv_maps e Hinv)) Hcell) as [Hh Hw].
    destruct (update_belief_map_with_lidar_correct e (inv_maps e Hinv))
      as (n & b' & Hrun & Hrect & _).
    exists n, b'. split; [done|].
    rewrite step_unfold, (move_in_place action e cell H0 Hcell), Hfree.
    rewrite Hturned, set_agent_pos_same, Hrun. simpl.
    by rewrite (size_nonzero _ _ _ Hrect Hh Hw).
  - intros Hbin. by rewrite (step_in_place action e Hreach Hbin H0), Hturned.
Qed.

Lemma invalid_action_is_noop_witness :
  (exists n b',
     update_belief_map_with_lidar room_start = Ok n (set_belief_map b' room_start) /\
     step 99 room_start =
     Ok (flatten b', reward_of false n, done_of b') (set_belief_map b' room_start)) /\
  (binary (true_map room_start) ->
   step 99 room_start =
   Ok (flatten (belief_map room_start), PyFloat (-0.1)%float,
       done_of (belief_map room_start)) room_start).
Proof.
  apply (invalid_action_is_noop 99 room_start).
  - exists room. apply reach_init. reflexivity.
  - lia.
  - lia.
  - lia.
Defined.

(** C6 as stated fails: [step(99)] on the freshly built room returns
    normally; no exception is raised. *)
Lemma invalid_action_counterexample :
  reachable room_start /\
  (exists result, step 99 room_start = Ok result room_start) /\
  ~ rejects 99 room_start.
Proof.
  split; [apply room_start_reachable|]. split.
  - exists (flatten (belief_map room_start), PyFloat (-0.1)%float, false).
    reflexivity.
  - intros [x Hx]. vm_compute in Hx. discriminate.
Qed.

(** ** C7 *)

(** [reset] does place the agent on a cell of the map that is Empty. *)
Lemma reset_position e obs e' :
  rect (height e) (width e) (true_map e) -> 0 <= agent_dir e < 4 ->
  reset e = Ok obs e' -> position_claim e'.
Proof.
  intros Hrect Hdir Hreset. pose proof (reset_outcome e Hrect Hdir) as H.
  rewrite Hreset in H. destruct H as (Hinv & _ & Ht & _ & Hhead).
  destruct (agent_pos e') as [r c] eqn:Hpos. simpl.
  destruct (argwhere_getitem (true_map e) EMPTY r c) as (Hr & Hc & Hcell).
  { destruct (argwhere (true_map e) EMPTY) as [|p rest]; [done|].
    injection Hhead as ->. by left. }
  unfold position_claim. rewrite Hpos, Ht. simpl. split; [|done].
  apply in_bounds_spec.
  destruct (inv_maps e' Hinv) as [Htm' _]. rewrite Ht in Htm'.
  by apply (rect_in_bounds (height e') (width e') _ r c EMPTY Htm').
Qed.

(** Where a call leaves the agent: where it was, or on the candidate cell of
    a forward move, which the ground truth does not mark as a wall. *)
Lemma move_final_position action e e1 :
  final_state (move action e) = Some e1 ->
  agent_pos e1 = agent_pos e \/
  (candidate e = Some (agent_pos e1) /\
   exists cell,
     getitem (true_map e) (fst (agent_pos e1)) (snd (agent_pos e1)) = Some cell /\
     cell <> WALL).
Proof.
  rewrite move_unfold. cbv zeta.
  assert (true_map (turned action e) = true_map e /\
          agent_pos (turned action e) = agent_pos e) as [Ht Hp].
  { unfold turned. by repeat case_match. }
  destruct (action =? 0) eqn:E0.
  - apply Z.eqb_eq in E0 as ->. rewrite turned_0.
    destruct (candidate e) as [new_pos|] eqn:Hcand; [|intros [= <-]; by left].
    destruct (getitem (true_map e) (fst new_pos) (snd new_pos)) as [cell|] eqn:Hcell;
      [|intros [= <-]; by left].
    destruct (cell =? WALL) eqn:Ew; intros [= <-]; [by left|right].
    apply Z.eqb_neq in Ew. split; [done|by exists cell].
  - rewrite Ht, Hp. intros H. left.
    destruct (getitem (true_map e) _ _) as [cell|]; [|by injection H as <-].
    destruct (cell =? WALL); by injection H as <-.
Qed.

Lemma step_final action e e' :
  final_state (step action e) = Some e' ->
  exists e1, final_state (move action e) = Some e1 /\ agent_pos e' = agent_pos e1.
Proof.
  rewrite step_unfold.
  destruct (move action e) as [c e1|x e1|]; [| |done].
  - intros H. exists e1. split; [done|].
    destruct (update_belief_map_with_lidar e1) as [n e2|x e2|] eqn:Hscan; [| |done].
    + assert (final_state (update_belief_map_with_lidar e1) = Some e2) as Hf
        by (by rewrite Hscan).
      apply update_belief_map_with_lidar_scan_frame in Hf as (b' & -> & _).
      destruct (_ =? 0); by injection H as <-.
    + assert (final_state (update_belief_map_with_lidar e1) = Some e2) as Hf
        by (by rewrite Hscan).
      apply update_belief_map_with_lidar_scan_frame in Hf as (b' & -> & _).
      by injection H as <-.
  - intros [= <-]. by exists e1.
Qed.

Lemma step_final_position action e e' :
  final_state (step action e) = Some e' ->
  agent_pos e' = agent_pos e \/
  (candidate e = Some (agent_pos e') /\
   exists cell,
     getitem (true_map e) (fst (agent_pos e')) (snd (agent_pos e')) = Some cell /\
     cell <> WALL).
Proof.
  intros (e1 & Hmove & ->)%step_final. by apply (move_final_position action).
Qed.

(** On an enclosed 0/1 map the invariant does hold: the agent never stands
    on the border, so every candidate cell is inside the map. *)
Lemma walled_position_invariant rows e :
  reachable_from rows e -> binary rows -> walled e -> position_claim e.
Proof.
  induction 1 as [e Hinit|e e' Hreach IH Hreset|e action e' Hreach IH Hstep];
    intros Hbin Hwalled.
  - pose proof (init_outcome rows) as Hout. rewrite Hinit in Hout.
    unfold init in Hinit.
    destruct (loadtxt rows) as [x|[shp a]] eqn:Hload; [done|].
    destruct shp as [|h [|w [|? ?]]]; try done.
    apply loadtxt_rect in Hload as (-> & Hrect & _).
    destruct (reset _) as [obs e0| |] eqn:Hreset; [|done..].
    injection Hinit as ->.
    apply (reset_position (mkEnv rows h w 0 [] (0, 0)) obs e Hrect); [simpl; lia|done].
  - apply reachable_from_inv in Hreach as [Hinv Ht].
    destruct (reset e) as [obs e0|x e0|] eqn:Hr; [| |done].
    + injection Hreset as ->.
      apply (reset_position e obs e'); [apply Hinv|apply Hinv|done].
    + pose proof (reset_outcome e) as Hout. rewrite Hr in Hout.
      destruct Hout as [Hnil _]; [apply Hinv..|]. by destruct (inv_start e Hinv).
  - pose proof (reachable_from_inv _ _ Hreach) as [Hinv Ht].
    pose proof (step_episode_frame _ _ _ Hstep) as (Ht' & Hh & Hw & _).
    assert (walled e) as Hwalled_e.
    { intros r c Hin Hborder. rewrite <- Ht'. apply Hwalled.
      - apply in_bounds_spec. apply in_bounds_spec in Hin. lia.
      - lia. }
    destruct (IH Hbin Hwalled_e) as [Hin Hcell].
    assert (forall p, agent_pos e' = p ->
              in_bounds e (fst p) (snd p) = true ->
              getitem (true_map e) (fst p) (snd p) = Some EMPTY ->
              position_claim e') as Hgoal.
    { intros p Hp Hinp Hcellp. unfold position_claim. rewrite Hp, Ht'. split; [|done].
      apply in_bounds_spec. apply in_bounds_spec in Hinp. lia. }
    destruct (step_final_position action e e' Hstep)
      as [Hsame|(Hcand & cell & Hcell' & Hfree)].
    + apply (Hgoal (agent_pos e)); done.
    + (* the agent is not on the border, so the candidate is inside the map *)
      apply in_bounds_spec in Hin as Hin'.
      assert (1 <= fst (agent_pos e) <= height e - 2 /\
              1 <= snd (agent_pos e) <= width e - 2) as Hinner.
      { destruct (decide (fst (agent_pos e) = 0 \/ fst (agent_pos e) = height e - 1 \/
                          snd (agent_pos e) = 0 \/ snd (agent_pos e) = width e - 1))
          as [Hb|Hb]; [|lia].
        rewrite (Hwalled_e _ _ Hin Hb) in Hcell. discriminate. }
      assert (in_bounds e (fst (agent_pos e')) (snd (agent_pos e')) = true) as Hin2.
      { unfold candidate, displacement in Hcand.
        pose proof (inv_dir e Hinv) as Hd.
        rewrite norm_index_inside in Hcand by (simpl; lia). simpl in Hcand.
        apply in_bounds_spec.
        assert (agent_dir e = 0 \/ agent_dir e = 1 \/ agent_dir e = 2 \/ agent_dir e = 3)
          as [Hd' | [Hd' | [Hd' | Hd']]] by lia;
          rewrite Hd' in Hcand; simpl in Hcand; injection Hcand as <-; simpl; lia. }
      apply (Hgoal (agent_pos e')); [done|done|].
      rewrite Hcell'. f_equal.
      assert (cell = EMPTY \/ cell = WALL) as [-> | ->]; [|done|done].
      rewrite Ht in Hcell'.
      apply getitem_Some in Hcell' as (i & row & j & _ & Hrow & _ & Hv).
      eapply Forall_lookup_1 in Hbin; [|done].
      by eapply Forall_lookup_1 in Hbin.
Qed.

(** C7 — Agent-position invariant, on the field without walls. The code
    leaves the map: after [step(1)] and [step(0)] from the start, both of
    which return normally, the stored position is [(-1, 0)], which is no cell
    of the map; and two steps forward from the start raise IndexError. *)
Theorem agent_position_escapes :
  init field = Built field_start /\
  (_ <~ step 1; step 0) field_start
    = Ok ([0; 0; 0; 0], PyFloat (-0.1)%float, true) field_outside /\
  reachable field_outside /\
  ~ position_claim field_outside /\
  (_ <~ step 0; step 0) field_start = Raise IndexError field_east.
Proof.
  split_and!; try reflexivity.
  - exists field. apply (reach_step field field_north 0).
    + apply (reach_step field field_start 1); [|reflexivity].
      apply reach_init. reflexivity.
    + reflexivity.
  - intros [Hin _]. vm_compute in Hin. discriminate.
Qed.

(** ** C8 *)

(** C8, as amended — Map loading. Construction fails, with the loader's
    ValueError, whenever the rows of the source are not all of one length;
    the cell values are not checked against {0, 1}. On success the ground truth is the
    source, and no later call changes it. *)
Theorem map_load (rows : list (list Z)) :
  ((exists row, row ∈ rows /\ length row <> length (hd [] rows)) ->
   init rows = Failed ValueError) /\
  (forall e, reachable_from rows e -> true_map e = rows) /\
  (forall action e e', final_state (step action e) = Some e' ->
     true_map e' = true_map e) /\
  (forall e e', final_state (reset e) = Some e' -> true_map e' = true_map e).
Proof.
  split_and!.
  - intros (row & Hin & Hlen). unfold init, loadtxt.
    destruct rows as [|row0 rest]; [by apply elem_of_nil in Hin|].
    destruct (forallb (λ row, (length row =? length row0)%nat) (row0 :: rest))
      eqn:Hall; [|done].
    rewrite forallb_forall in Hall.
    apply list_elem_of_In, Hall, Nat.eqb_eq in Hin. done.
  - intros e H. by apply reachable_from_inv in H as [_ ?].
  - intros action e e' H. by apply step_episode_frame in H as [? _].
  - intros e e' H. by apply reset_same_truth in H as [? _].
Qed.

Lemma map_load_witness :
  ((exists row, row ∈ [[0; 0]; [1]] /\ length row <> length (hd [] [[0; 0]; [1]])) ->
   init [[0; 0]; [1]] = Failed ValueError) /\
  (forall e, reachable_from [[0; 0]; [1]] e -> true_map e = [[0; 0]; [1]]) /\
  (forall action e e', final_state (step action e) = Some e' ->
     true_map e' = true_map e) /\
  (forall e e', final_state (reset e) = Some e' -> true_map e' = true_map e).
Proof. apply (map_load [[0; 0]; [1]]). Defined.

(** C8 as stated fails: a source with a value outside {0, 1} is accepted. *)
Lemma map_load_counterexample :
  let rows := [[0; 2]; [1; 1]] in
  ~ well_formed_source rows /\
  init rows = Built (mkEnv rows 2 2 0 [[0; 2]; [1; 1]] (0, 0)).
Proof.
  split; [|reflexivity].
  intros [_ Hbin]. apply Forall_cons_1 in Hbin as [Hrow _].
  apply Forall_cons_1 in Hrow as [_ Hrow].
  apply Forall_cons_1 in Hrow as [[H|H] _]; discriminate.
Qed.

(** * Further properties of the code *)

(** ** The outcome of a step, in a state the object can reach *)

Lemma inv_dims e : inv e -> 0 < height e /\ 0 < width e.
Proof.
  intros Hinv. destruct (inv_free e Hinv) as (cell & Hcell & _).
  apply (getitem_dims _ _ _ _ _ _ (proj1 (inv_maps e Hinv)) Hcell).
Qed.

(** Either the forward move cannot look its candidate up and [step] raises
    with nothing changed, or the move and the scan both return. *)
Lemma step_cases action e :
  inv e ->
  (action = 0 /\ move 0 e = Raise IndexError e /\ step 0 e = Raise IndexError e) \/
  (exists c e1 n b',
     move action e = Ok c e1 /\
     inv (set_belief_map b' e1) /\
     belief_map e1 = belief_map e /\ same_truth e e1 /\
     update_belief_map_with_lidar e1 = Ok n (set_belief_map b' e1) /\
     scan_rel e1 (seen e1) (belief_map e) b' /\
     (binary (true_map e) ->
      count_nonzero_ne b' UNKNOWN = count_nonzero_ne (belief_map e) UNKNOWN + n) /\
     step action e = Ok (flatten b', reward_of c n, done_of b') (set_belief_map b' e1)).
Proof.
  intros Hinv. pose proof (move_outcome action e Hinv) as Hmove.
  destruct (move action e) as [c e1|x e1|] eqn:Em; [|left|done].
  - right. destruct Hmove as (Hm & Hd & Hf & Ht & Hb & _).
    assert (final_state (move action e) = Some e1) as Hfin by (by rewrite Em).
    apply move_episode_frame in Hfin as (_ & Hh & Hw & _).
    destruct (update_belief_map_with_lidar_correct e1 Hm)
      as (n & b' & Hrun & Hrect & Hrel & Hcount).
    assert (inv (set_belief_map b' e1)) as Hinv'.
    { apply (step_inv action e); [done|]. rewrite step_unfold, Em, Hrun.
      simpl. by destruct (_ =? 0). }
    destruct (inv_dims _ Hinv') as [Hh' Hw'].
    exists c, e1, n, b'. rewrite <- Hb, <- Ht. split_and!; try done.
    rewrite step_unfold, Em, Hrun. simpl.
    by rewrite (size_nonzero _ _ _ Hrect Hh' Hw').
  - destruct Hmove as (-> & -> & ->). split_and!; try done.
    by rewrite step_unfold, Em.
Qed.

(** ** The count of a scan *)

Lemma ray_count_le fuel dx dy x y n e n' e' :
  ray fuel dx dy x y n e = Ok n' e' -> n <= n'.
Proof.
  revert x y n e. induction fuel as [|fuel IH]; intros x y n e; [done|].
  rewrite ray_S.
  destruct (in_bounds e (x + dx) (y + dy)); [|intros [= <- _]; lia].
  destruct (getitem (true_map e) (x + dx) (y + dy)) as [tv|]; [|done].
  destruct (getitem (belief_map e) (x + dx) (y + dy)) as [s|]; [|done].
  destruct (s =? UNKNOWN).
  - destruct (setitem (belief_map e) (x + dx) (y + dy) tv) as [b'|]; [|done].
    destruct (tv =? WALL); [intros [= <- _]; lia|].
    intros H%IH. lia.
  - destruct (tv =? WALL); [intros [= <- _]; lia|]. apply IH.
Qed.

Lemma for_each_count_le {S A} (l : list A) (body : A -> Z -> M S Z) v s v' s' :
  (forall a v s v' s', body a v s = Ok v' s' -> v <= v') ->
  for_each l body v s = Ok v' s' -> v <= v'.
Proof.
  intros Hbody. revert v s. induction l as [|a l IH]; intros v s; simpl.
  - intros [= <- _]. lia.
  - unfold bind. destruct (body a v s) as [v1 s1| |] eqn:Hb; [|done..].
    intros H%IH. apply Hbody in Hb. lia.
Qed.

Lemma update_belief_map_with_lidar_count e n e' :
  update_belief_map_with_lidar e = Ok n e' -> 0 <= n.
Proof.
  unfold update_belief_map_with_lidar, bind, get.
  unfold lidar, bind, gets.
  destruct (agent_pos e) as [x y].
  apply for_each_count_le. intros dx v s v' s'.
  apply for_each_count_le. intros dy v0 s0 v0' s0'.
  destruct ((dx =? 0) && (dy =? 0)); [intros [= <- _]; lia|].
  apply ray_count_le.
Qed.

(** ** [reset], case by case *)

Lemma reset_unfold e :
  reset e =
  let blank := full (height e) (width e) UNKNOWN in
  match argwhere (true_map e) EMPTY with
  | [] => Raise IndexError (set_belief_map blank e)
  | start :: _ =>
      let e0 := set_agent_pos start (set_belief_map blank e) in
      match setitem blank (fst start) (snd start) EMPTY with
      | None => Raise IndexError e0
      | Some b1 =>
          match update_belief_map_with_lidar (set_belief_map b1 e0) with
          | Ok n e2 => Ok (flatten (belief_map e2)) e2
          | Raise x e2 => Raise x e2
          | Diverge => Diverge
          end
      end
  end.
Proof.
  unfold reset, bind, get, modify. cbv zeta.
  destruct (argwhere (true_map e) EMPTY) as [|start rest]; [done|].
  unfold belief_setitem, bind, gets, index, modify, raise, ret. simpl.
  destruct (setitem _ _ _ _) as [b1|]; [|done]. simpl.
  by destruct (update_belief_map_with_lidar _).
Qed.

(** What a successful [reset] does, for arrays of the recorded shape. *)
Lemma reset_returns e obs e' :
  rect (height e) (width e) (true_map e) ->
  reset e = Ok obs e' ->
  exists r c rest b1 n b',
    argwhere (true_map e) EMPTY = (r, c) :: rest /\
    in_bounds e r c = true /\
    getitem (true_map e) r c = Some EMPTY /\
    setitem (full (height e) (width e) UNKNOWN) r c EMPTY = Some b1 /\
    let e1 := set_belief_map b1 (set_agent_pos (r, c) e) in
    wf_maps e1 /\
    update_belief_map_with_lidar e1 = Ok n (set_belief_map b' e1) /\
    scan_rel e1 (seen e1) b1 b' /\
    known_kept b1 b' /\
    e' = set_belief_map b' e1 /\ obs = flatten b'.
Proof.
  intros Htm. rewrite reset_unfold. cbv zeta.
  destruct (argwhere (true_map e) EMPTY) as [|[r c] rest] eqn:Hstart; [done|].
  destruct (argwhere_getitem (true_map e) EMPTY r c) as (Hr & Hc & Hcell).
  { rewrite Hstart. by left. }
  destruct (rect_in_bounds _ _ _ _ _ _ Htm Hr Hc Hcell) as [Hr' Hc'].
  simpl.
  destruct (setitem (full (height e) (width e) UNKNOWN) r c EMPTY) as [b1|] eqn:Hb1;
    [|done].
  set (e1 := set_belief_map b1 (set_agent_pos (r, c) e)).
  change (set_belief_map b1 (set_agent_pos (r, c) (set_belief_map _ e))) with e1.
  assert (wf_maps e1) as Hwf1.
  { split; [done|]. simpl. eapply rect_setitem; [|done]. apply rect_full; lia. }
  destruct (update_belief_map_with_lidar_correct e1 Hwf1)
    as (n & b' & Hrun & Hrect & Hrel & _).
  assert (known_kept b1 b') as Hkept.
  { assert (final_state (update_belief_map_with_lidar e1)
            = Some (set_belief_map b' e1)) as Hf by (by rewrite Hrun).
    apply update_belief_map_with_lidar_scan_frame in Hf as (b2 & Heq & Hk).
    injection Heq as <-. done. }
  rewrite Hrun. intros [= <- <-].
  exists r, c, rest, b1, n, b'. split_and!; try done.
  apply in_bounds_spec. lia.
Qed.

(** ** The belief map is right wherever it is known *)

Lemma scan_rel_sound e V b b' :
  (forall r c v, in_bounds e r c = true ->
     getitem b r c = Some v -> v <> UNKNOWN -> getitem (true_map e) r c = Some v) ->
  scan_rel e V b b' ->
  forall r c v, in_bounds e r c = true ->
    getitem b' r c = Some v -> v <> UNKNOWN -> getitem (true_map e) r c = Some v.
Proof.
  intros Hb Hrel r c v Hin Hv Hne.
  destruct (Hrel r c Hin) as ([Heq|Heq] & _).
  - apply Hb; [done| |done]. by rewrite <- Heq.
  - by rewrite <- Heq.
Qed.

Lemma reset_sound e obs e' :
  rect (height e) (width e) (true_map e) -> reset e = Ok obs e' -> sound e'.
Proof.
  intros Htm Hreset.
  destruct (reset_returns e obs e' Htm Hreset)
    as (r & c & rest & b1 & n & b' & _ & Hin & Hcell & Hb1 & _ & _ & Hrel & _ & -> & _).
  apply in_bounds_spec in Hin as Hin'.
  set (e1 := set_belief_map b1 (set_agent_pos (r, c) e)) in *.
  intros r' c' v Hin2 Hv Hne.
  apply (scan_rel_sound e1 (seen e1) b1 b'); [|exact Hrel|exact Hin2|exact Hv|exact Hne].
  clear r' c' v Hin2 Hv Hne.
  intros r' c' v Hin2 Hv Hne. simpl.
  apply in_bounds_spec in Hin2 as Hin2'. simpl in Hin2'.
  destruct (decide ((r, c) = (r', c'))) as [[= <- <-]|Hdiff].
  - rewrite (setitem_getitem_same _ _ _ _ _ Hb1) in Hv. by injection Hv as <-.
  - rewrite (setitem_getitem_other _ _ _ _ _ r' c' Hb1) in Hv by (done || lia).
    rewrite full_getitem in Hv by lia. by injection Hv as <-.
Qed.

Lemma step_sound action e e' :
  inv e -> sound e -> final_state (step action e) = Some e' -> sound e'.
Proof.
  intros Hinv Hsound.
  destruct (step_cases action e Hinv)
    as [(-> & _ & ->)|(c & e1 & n & b' & _ & _ & Hb & (Ht & Hh & Hw) & _ & Hrel & _ & ->)].
  - by intros [= <-].
  - intros [= <-]. intros r0 c0 v0 Hin0 Hv0 Hne0.
    apply (scan_rel_sound e1 (seen e1) (belief_map e) b');
      [|exact Hrel|exact Hin0|exact Hv0|exact Hne0].
    clear r0 c0 v0 Hin0 Hv0 Hne0.
    intros r0 c0 v Hin Hv Hne. rewrite Ht. apply Hsound; [|done..].
    apply in_bounds_spec. apply in_bounds_spec in Hin. lia.
Qed.

Lemma reachable_from_sound rows e : reachable_from rows e -> sound e.
Proof.
  induction 1 as [e Hinit|e e' Hreach IH Hreset|e action e' Hreach IH Hstep].
  - unfold init in Hinit.
    destruct (loadtxt rows) as [x|[shp a]] eqn:Hload; [done|].
    destruct shp as [|h [|w [|? ?]]]; try done.
    apply loadtxt_rect in Hload as (-> & Hrect & _).
    destruct (reset _) as [obs e0| |] eqn:Hreset; [|done..].
    injection Hinit as ->.
    by apply (reset_sound (mkEnv rows h w 0 [] (0, 0)) obs e Hrect Hreset).
  - apply reachable_from_inv in Hreach as [Hinv _].
    destruct (reset e) as [obs e0|x e0|] eqn:Hr; [| |done].
    + injection Hreset as ->. apply (reset_sound e obs); [apply Hinv|done].
    + pose proof (reset_outcome e) as Hout. rewrite Hr in Hout.
      destruct Hout as [Hnil _]; [apply Hinv..|]. by destruct (inv_start e Hinv).
  - apply reachable_from_inv in Hreach as [Hinv _]. by eapply step_sound.
Qed.

(** X1 — In every state the object can reach, a cell of the belief map that is
    not Unknown holds the value of the ground truth. *)
Theorem belief_sound (rows : list (list Z)) (e : env) (r c v : Z) :
  reachable_from rows e ->
  in_bounds e r c = true ->
  getitem (belief_map e) r c = Some v -> v <> UNKNOWN ->
  getitem rows r c = Some v.
Proof.
  intros Hreach Hin Hv Hne.
  pose proof (reachable_from_sound rows e Hreach) as Hsound.
  pose proof (reachable_from_inv rows e Hreach) as [_ <-].
  by apply Hsound.
Qed.

Lemma belief_sound_witness : getitem room 1 2 = Some 0.
Proof.
  apply (belief_sound room room_start 1 2 0).
  - apply reach_init. reflexivity.
  - reflexivity.
  - reflexivity.
  - unfold UNKNOWN. lia.
Defined.

(** ** The known cells only grow *)

(** X2 — On a 0/1 map, a step that returns adds to the known cells exactly the
    count [n] that its reward is computed from: the number of known cells
    never decreases, [n] is at most the number of Unknown cells, and the
    array keeps its size. *)
Theorem known_cells_grow (rows : list (list Z)) (action : Z) (e e' : env)
    obs reward done :
  reachable_from rows e -> binary rows ->
  step action e = Ok (obs, reward, done) e' ->
  exists is_collision n,
    reward = reward_of is_collision n /\
    count_nonzero_ne (belief_map e') UNKNOWN
      = count_nonzero_ne (belief_map e) UNKNOWN + n /\
    0 <= n <= size (belief_map e) - count_nonzero_ne (belief_map e) UNKNOWN /\
    size (belief_map e') = size (belief_map e).
Proof.
  intros Hreach Hbin Hstep.
  pose proof (reachable_from_inv rows e Hreach) as [Hinv Ht].
  destruct (step_cases action e Hinv)
    as [(-> & _ & Hraise)|(c & e1 & n & b' & _ & Hinv' & Hb & (Ht' & Hh & Hw) & Hrun
                            & _ & Hcount & Hok)]; [congruence|].
  rewrite Hok in Hstep. injection Hstep as <- <- <- <-.
  specialize (Hcount ltac:(by rewrite Ht)).
  destruct (inv_dims e Hinv) as [Hh0 Hw0].
  destruct (inv_maps _ Hinv') as [_ Hrect']. simpl in Hrect'.
  rewrite Hh, Hw in Hrect'.
  pose proof (count_le_size _ _ _ UNKNOWN Hrect' Hh0) as Hle.
  pose proof (rect_size _ _ _ Hrect' Hh0) as Hsize'.
  pose proof (rect_size _ _ _ (proj2 (inv_maps e Hinv)) Hh0) as Hsize.
  apply update_belief_map_with_lidar_count in Hrun.
  exists c, n. simpl. split_and!; try done; lia.
Qed.

Lemma known_cells_grow_witness :
  exists is_collision n,
    PyFloat 5.9%float = reward_of is_collision n /\
    count_nonzero_ne
      [[ 1;  1;  1;  1; -1];
       [ 1;  0;  0;  0;  1];
       [ 1;  0;  0;  0; -1];
       [ 1;  0;  0;  0;  1];
       [-1;  1;  1; -1;  1]] UNKNOWN
      = count_nonzero_ne (belief_map room_start) UNKNOWN + n /\
    0 <= n <= size (belief_map room_start)
              - count_nonzero_ne (belief_map room_start) UNKNOWN /\
    size [[ 1;  1;  1;  1; -1];
          [ 1;  0;  0;  0;  1];
          [ 1;  0;  0;  0; -1];
          [ 1;  0;  0;  0;  1];
          [-1;  1;  1; -1;  1]] = size (belief_map room_start).
Proof.
  apply (known_cells_grow room 0 room_start
           (set_agent_pos (1, 2)
              (set_belief_map
                 [[ 1;  1;  1;  1; -1];
                  [ 1;  0;  0;  0;  1];
                  [ 1;  0;  0;  0; -1];
                  [ 1;  0;  0;  0;  1];
                  [-1;  1;  1; -1;  1]] room_start))
           [1; 1; 1; 1; -1; 1; 0; 0; 0; 1; 1; 0; 0; 0; -1; 1; 0; 0; 0; 1;
            -1; 1; 1; -1; 1]
           (PyFloat 5.9%float) false).
  - apply reach_init. reflexivity.
  - solve_binary.
  - reflexivity.
Defined.

(** ** A scan is idempotent *)

(** X3 — On a 0/1 map, scanning again from the same position discovers nothing:
    the second scan returns 0 and leaves the object as the first left it. *)
Theorem scan_idempotent (e e1 : env) (n : Z) :
  wf_maps e -> binary (true_map e) ->
  update_belief_map_with_lidar e = Ok n e1 ->
  update_belief_map_with_lidar e1 = Ok 0 e1.
Proof.
  intros Hwf Hbin Hrun.
  destruct (update_belief_map_with_lidar_correct e Hwf)
    as (n' & b' & Hrun' & Hrect & Hrel & _).
  rewrite Hrun' in Hrun. injection Hrun as <- <-.
  apply scanned_idle.
  - split; [apply Hwf|done].
  - done.
  - by apply scan_rel_scanned.
Qed.

Lemma scan_idempotent_witness :
  update_belief_map_with_lidar room_start = Ok 0 room_start.
Proof.
  apply (scan_idempotent room_start room_start 0).
  - split; (split; [reflexivity|repeat constructor]).
  - solve_binary.
  - reflexivity.
Defined.

(** ** Turning *)

Lemma steps_cons a l e r e1 :
  step a e = Ok r e1 -> steps (a :: l) e = steps l e1.
Proof. intros H. unfold steps. simpl. unfold bind at 1 2. by rewrite H. Qed.

Lemma turn_step rows e a :
  reachable_from rows e -> binary rows -> a <> 0 ->
  step a e =
    Ok (flatten (belief_map e), PyFloat (-0.1)%float, done_of (belief_map e))
       (turned a e) /\
  reachable_from rows (turned a e).
Proof.
  intros Hreach Hbin Ha.
  pose proof (reachable_from_inv rows e Hreach) as [_ Ht].
  assert (step a e =
    Ok (flatten (belief_map e), PyFloat (-0.1)%float, done_of (belief_map e))
       (turned a e)) as Hstep.
  { apply step_in_place; [by exists rows|by rewrite Ht|done]. }
  split; [done|]. apply (reach_step rows e a); [done|]. by rewrite Hstep.
Qed.

Lemma turned_cycle e :
  0 <= agent_dir e < 4 ->
  turned 1 (turned 1 (turned 1 (turned 1 e))) = e /\
  turned 2 (turned 2 (turned 2 (turned 2 e))) = e /\
  turned 2 (turned 1 e) = e /\
  turned 1 (turned 2 e) = e.
Proof.
  intros Hd. destruct e as [tm h w d b p]. simpl in Hd.
  assert (d = 0 \/ d = 1 \/ d = 2 \/ d = 3) as [-> | [-> | [-> | ->]]] by lia;
    by repeat split.
Qed.

(** X4 — On a 0/1 map, in every state the object can reach: four left turns, or
    four right turns, or a left and a right turn in either order, all return
    normally and bring the object back to the very state it was in. *)
Theorem orientation_cycle (rows : list (list Z)) (e : env) :
  reachable_from rows e -> binary rows ->
  steps [1; 1; 1; 1] e = Ok tt e /\
  steps [2; 2; 2; 2] e = Ok tt e /\
  steps [1; 2] e = Ok tt e /\
  steps [2; 1] e = Ok tt e.
Proof.
  intros Hreach Hbin.
  pose proof (reachable_from_inv rows e Hreach) as [Hinv _].
  destruct (turned_cycle e (inv_dir e Hinv)) as (H4l & H4r & Hlr & Hrl).
  assert (forall a b, a <> 0 -> b <> 0 ->
            steps [a; b] e = Ok tt (turned b (turned a e))) as H2.
  { intros a b Ha Hb.
    destruct (turn_step rows e a Hreach Hbin Ha) as [Hs1 Hr1].
    destruct (turn_step rows _ b Hr1 Hbin Hb) as [Hs2 _].
    by rewrite (steps_cons _ _ _ _ _ Hs1), (steps_cons _ _ _ _ _ Hs2). }
  assert (forall a, a <> 0 ->
            steps [a; a; a; a] e
            = Ok tt (turned a (turned a (turned a (turned a e))))) as H4.
  { intros a Ha.
    destruct (turn_step rows e a Hreach Hbin Ha) as [Hs1 Hr1].
    destruct (turn_step rows _ a Hr1 Hbin Ha) as [Hs2 Hr2].
    destruct (turn_step rows _ a Hr2 Hbin Ha) as [Hs3 Hr3].
    destruct (turn_step rows _ a Hr3 Hbin Ha) as [Hs4 _].
    by rewrite (steps_cons _ _ _ _ _ Hs1), (steps_cons _ _ _ _ _ Hs2),
      (steps_cons _ _ _ _ _ Hs3), (steps_cons _ _ _ _ _ Hs4). }
  split_and!.
  - rewrite H4 by lia. by rewrite H4l.
  - rewrite H4 by lia. by rewrite H4r.
  - rewrite H2 by lia. by rewrite Hlr.
  - rewrite H2 by lia. by rewrite Hrl.
Qed.

Lemma orientation_cycle_witness :
  steps [1; 1; 1; 1] room_start = Ok tt room_start /\
  steps [2; 2; 2; 2] room_start = Ok tt room_start /\
  steps [1; 2] room_start = Ok tt room_start /\
  steps [2; 1] room_start = Ok tt room_start.
Proof.
  apply (orientation_cycle room room_start).
  - apply reach_init. reflexivity.
  - solve_binary.
Defined.

(** ** Enclosed maps: no call ever raises *)

Lemma walledb_walled e : walledb e = true -> walled e.
Proof.
  unfold walledb. rewrite forallb_forall. intros H r c Hin Hborder.
  apply in_bounds_spec in Hin as [Hr Hc].
  specialize (H r). rewrite forallb_forall in H.
  specialize (H ltac:(apply list_elem_of_In, elem_of_seqZ; lia) c
                ltac:(apply list_elem_of_In, elem_of_seqZ; lia)).
  replace ((r =? 0) || (r =? height e - 1) || (c =? 0) || (c =? width e - 1))
    with true in H.
  - destruct (getitem (true_map e) r c) as [v|]; [|done].
    apply Z.eqb_eq in H. by subst.
  - symmetry. rewrite !orb_true_iff, !Z.eqb_eq. tauto.
Qed.

Lemma walled_candidate_inside e cand :
  walled e -> position_claim e -> 0 <= agent_dir e < 4 ->
  candidate e = Some cand ->
  in_bounds e (fst cand) (snd cand) = true.
Proof.
  intros Hwalled [Hin Hcell] Hd Hcand.
  apply in_bounds_spec in Hin as Hin'.
  assert (1 <= fst (agent_pos e) <= height e - 2 /\
          1 <= snd (agent_pos e) <= width e - 2) as Hinner.
  { destruct (decide (fst (agent_pos e) = 0 \/ fst (agent_pos e) = height e - 1 \/
                      snd (agent_pos e) = 0 \/ snd (agent_pos e) = width e - 1))
      as [Hb|Hb]; [|lia].
    rewrite (Hwalled _ _ Hin Hb) in Hcell. discriminate. }
  unfold candidate, displacement in Hcand.
  rewrite norm_index_inside in Hcand by (simpl; lia). simpl in Hcand.
  apply in_bounds_spec.
  assert (agent_dir e = 0 \/ agent_dir e = 1 \/ agent_dir e = 2 \/ agent_dir e = 3)
    as [Hd' | [Hd' | [Hd' | Hd']]] by lia;
    rewrite Hd' in Hcand; simpl in Hcand; injection Hcand as <-; simpl; lia.
Qed.

Lemma step_walled rows e action :
  reachable_from rows e -> binary rows -> walled e ->
  exists obs reward e',
    step action e = Ok (obs, reward, done_of (belief_map e')) e' /\
    walled e' /\ position_claim e'.
Proof.
  intros Hreach Hbin Hwalled.
  pose proof (reachable_from_inv rows e Hreach) as [Hinv Ht].
  pose proof (walled_position_invariant rows e Hreach Hbin Hwalled) as Hpos.
  destruct (step_cases action e Hinv)
    as [(-> & Hraise & _)|(c & e1 & n & b' & _ & _ & _ & (Ht' & Hh & Hw) & _ & _ & _ & Hok)].
  - exfalso.
    destruct (candidate_valid e (inv_dir e Hinv)) as [cand Hcand].
    pose proof (walled_candidate_inside e cand Hwalled Hpos (inv_dir e Hinv) Hcand)
      as [Hr Hc]%in_bounds_spec.
    destruct (rect_getitem _ _ _ _ _ (proj1 (inv_maps e Hinv)) Hr Hc) as [cell Hcell].
    rewrite (move_forward e cand cell Hcand Hcell) in Hraise.
    by destruct (cell =? WALL).
  - exists (flatten b'), (reward_of c n), (set_belief_map b' e1).
    split; [exact Hok|].
    assert (walled (set_belief_map b' e1)) as Hwalled'.
    { intros r0 c0 Hin Hborder. simpl. rewrite Ht'. apply Hwalled.
      - apply in_bounds_spec. apply in_bounds_spec in Hin. simpl in Hin. lia.
      - simpl in Hborder. lia. }
    split; [done|].
    apply (walled_position_invariant rows); [|done|done].
    apply (reach_step rows e action); [done|]. by rewrite Hok.
Qed.

(** X5 — On a 0/1 map whose border cells are all walls, in every state the object
    can reach, [step] returns normally for every action code, and leaves the
    agent on an Empty cell inside the map. *)
Theorem step_never_raises (rows : list (list Z)) (e : env) (action : Z) :
  reachable_from rows e -> binary rows -> walled e ->
  exists result e',
    step action e = Ok result e' /\ walled e' /\ position_claim e'.
Proof.
  intros Hreach Hbin Hwalled.
  destruct (step_walled rows e action Hreach Hbin Hwalled)
    as (obs & reward & e' & Hstep & Hwalled' & Hpos).
  by exists (obs, reward, done_of (belief_map e')), e'.
Qed.

Lemma step_never_raises_witness :
  exists result e',
    step 0 room_start = Ok result e' /\ walled e' /\ position_claim e'.
Proof.
  apply (step_never_raises room room_start 0).
  - apply reach_init. reflexivity.
  - solve_binary.
  - apply walledb_walled. reflexivity.
Defined.

(** ** The agent knows the cells around it *)

Lemma sees_adjacent e dx dy x y :
  in_bounds e (x + dx) (y + dy) = true -> sees e dx dy x y (x + dx) (y + dy).
Proof.
  intros Hin. exists 1. split; [lia|]. split; [lia|]. split; [lia|]. split.
  - intros j Hj. replace j with 1 by lia. by rewrite !Z.mul_1_l.
  - intros j Hj. lia.
Qed.

Lemma candidate_ray_dir e cand :
  0 <= agent_dir e < 4 -> candidate e = Some cand ->
  exists dx dy, ray_dir dx dy /\
    cand = (fst (agent_pos e) + dx, snd (agent_pos e) + dy).
Proof.
  intros Hd Hcand. unfold candidate, displacement in Hcand.
  rewrite norm_index_inside in Hcand by (simpl; lia). simpl in Hcand.
  assert (agent_dir e = 0 \/ agent_dir e = 1 \/ agent_dir e = 2 \/ agent_dir e = 3)
    as [Hd' | [Hd' | [Hd' | Hd']]] by lia;
    rewrite Hd' in Hcand; simpl in Hcand; injection Hcand as <-.
  - exists 0, 1. split; [unfold ray_dir; lia|done].
  - exists (-1), 0. split; [unfold ray_dir; lia|done].
  - exists 0, (-1). split; [unfold ray_dir; lia|done].
  - exists 1, 0. split; [unfold ray_dir; lia|done].
Qed.

Lemma reset_own_cell e obs e' :
  rect (height e) (width e) (true_map e) -> reset e = Ok obs e' ->
  getitem (belief_map e') (fst (agent_pos e')) (snd (agent_pos e')) = Some EMPTY.
Proof.
  intros Htm Hreset.
  destruct (reset_returns e obs e' Htm Hreset)
    as (r & c & rest & b1 & n & b' & _ & _ & _ & Hb1 & _ & _ & _ & Hkept & -> & _).
  simpl. apply Hkept; [|done]. by apply (setitem_getitem_same _ _ _ _ _ Hb1).
Qed.

Lemma reachable_own_cell rows e :
  reachable_from rows e -> binary rows ->
  in_bounds e (fst (agent_pos e)) (snd (agent_pos e)) = true ->
  exists v,
    getitem (belief_map e) (fst (agent_pos e)) (snd (agent_pos e)) = Some v /\
    v <> UNKNOWN.
Proof.
  induction 1 as [e Hinit|e e' Hreach IH Hreset|e action e' Hreach IH Hstep];
    intros Hbin.
  - intros _. exists EMPTY. split; [|done].
    unfold init in Hinit.
    destruct (loadtxt rows) as [x|[shp a]] eqn:Hload; [done|].
    destruct shp as [|h [|w [|? ?]]]; try done.
    apply loadtxt_rect in Hload as (-> & Hrect & _).
    destruct (reset _) as [obs e0| |] eqn:Hreset; [|done..].
    injection Hinit as ->.
    by apply (reset_own_cell (mkEnv rows h w 0 [] (0, 0)) obs e Hrect Hreset).
  - intros _. exists EMPTY. split; [|done].
    apply reachable_from_inv in Hreach as [Hinv _].
    destruct (reset e) as [obs e0|x e0|] eqn:Hr; [| |done].
    + injection Hreset as ->. apply (reset_own_cell e obs); [apply Hinv|done].
    + pose proof (reset_outcome e) as Hout. rewrite Hr in Hout.
      destruct Hout as [Hnil _]; [apply Hinv..|]. by destruct (inv_start e Hinv).
  - pose proof (reachable_from_inv rows e Hreach) as [Hinv Ht].
    destruct (step_cases action e Hinv)
      as [(-> & _ & Hraise)|(c & e1 & n & b' & Hmove & _ & Hb & (Ht' & Hh & Hw) & _
                              & Hrel & _ & Hok)].
    { rewrite Hraise in Hstep. injection Hstep as <-. by apply IH. }
    rewrite Hok in Hstep. injection Hstep as <-. simpl. intros Hin.
    assert (in_bounds e1 (fst (agent_pos e1)) (snd (agent_pos e1)) = true) as Hin1
      by exact Hin.
    assert (in_bounds e (fst (agent_pos e1)) (snd (agent_pos e1)) = true) as Hin0.
    { apply in_bounds_spec. apply in_bounds_spec in Hin1. lia. }
    destruct (Hrel _ _ Hin1) as (_ & Hkeep & _).
    assert (exists v,
      getitem (belief_map e) (fst (agent_pos e1)) (snd (agent_pos e1)) = Some v /\
      v <> UNKNOWN) as (v & Hv & Hne).
    { assert (final_state (move action e) = Some e1) as Hfin by (by rewrite Hmove).
      destruct (move_final_position action e e1 Hfin) as [Hsame|(Hcand & _)].
      - rewrite Hsame in *. by apply IH.
      - destruct (candidate_ray_dir e _ (inv_dir e Hinv) Hcand)
          as (dx & dy & Hdir & Hpos).
        apply in_bounds_spec in Hin0 as Hin0'.
        destruct (rect_getitem _ _ _ _ _ (proj2 (inv_maps e Hinv))
                    (proj1 Hin0') (proj2 Hin0')) as [v Hv].
        exists v. split; [done|]. intros ->.
        apply (inv_scanned e Hinv ltac:(by rewrite Ht) _ _ Hin0); [|done].
        exists dx, dy. split; [done|].
        rewrite Hpos in Hin0 |- *. simpl in *. by apply sees_adjacent. }
    exists v. split; [|done]. rewrite Hkeep; [done|]. rewrite Hv. congruence.
Qed.

(** A stored position outside the map is another matter: the cell it
    addresses from the opposite edge need not be known. On this map, after
    a left turn and a step forward from the start, the position is
    [(-1, 0)] and [belief_map[-1, 0]], the cell [(2, 0)], is Unknown. *)
Example wrapped_position_unknown :
  let rows := [[0; 0; 0]; [1; 0; 0]; [0; 0; 0]] in
  exists e0 e,
    init rows = Built e0 /\ steps [1; 0] e0 = Ok tt e /\
    agent_pos e = (-1, 0) /\
    getitem (belief_map e) (-1) 0 = Some UNKNOWN.
Proof.
  eexists _, _. split; [vm_compute; reflexivity|].
  split; [vm_compute; reflexivity|]. split; reflexivity.
Qed.

(** X6 — On a 0/1 map, in every state the object can reach, every cell at
    most one step away from the stored position (the position itself
    and its eight neighbours, [dx] and [dy] in [-1, 0, 1], no wrap-around)
    whose coordinates lie inside the map is known in the belief map. For a
    stored position outside the map this covers the neighbours inside the
    map, and not the cell the position addresses from the opposite edge. *)
Theorem neighbourhood_known (rows : list (list Z)) (e : env) (dx dy : Z) :
  reachable_from rows e -> binary rows ->
  -1 <= dx <= 1 -> -1 <= dy <= 1 ->
  in_bounds e (fst (agent_pos e) + dx) (snd (agent_pos e) + dy) = true ->
  exists v,
    getitem (belief_map e) (fst (agent_pos e) + dx) (snd (agent_pos e) + dy)
      = Some v /\
    v <> UNKNOWN.
Proof.
  intros Hreach Hbin Hdx Hdy Hin.
  destruct (decide (dx = 0 /\ dy = 0)) as [[-> ->]|Hne].
  - rewrite !Z.add_0_r in *. by apply (reachable_own_cell rows).
  - pose proof (reachable_from_inv rows e Hreach) as [Hinv Ht].
    apply in_bounds_spec in Hin as Hin'.
    destruct (rect_getitem _ _ _ _ _ (proj2 (inv_maps e Hinv))
                (proj1 Hin') (proj2 Hin')) as [v Hv].
    exists v. split; [done|]. intros ->.
    apply (inv_scanned e Hinv ltac:(by rewrite Ht) _ _ Hin); [|done].
    exists dx, dy. split; [done|]. by apply sees_adjacent.
Qed.

Lemma neighbourhood_known_witness :
  exists v,
    getitem (belief_map room_start)
      (fst (agent_pos room_start) + 1) (snd (agent_pos room_start) + 1) = Some v /\
    v <> UNKNOWN.
Proof.
  apply (neighbourhood_known room room_start 1 1).
  - apply reach_init. reflexivity.
  - solve_binary.
  - lia.
  - lia.
  - reflexivity.
Defined.

(** ** Once done, always done *)

(** X7 — On a 0/1 map of at most 400 cells, when the belief map of a reachable
    state already passes the test [coverage > 0.95], a step that returns
    reports done and leaves a belief map that passes the test again: from
    then on every step reports done. *)
Theorem done_is_stable (rows : list (list Z)) (action : Z) (e e' : env)
    obs reward done :
  reachable_from rows e -> binary rows ->
  size (belief_map e) <= 400 ->
  done_of (belief_map e) = true ->
  step action e = Ok (obs, reward, done) e' ->
  done = true /\ done_of (belief_map e') = true.
Proof.
  intros Hreach Hbin Hsmall Hdone Hstep.
  pose proof (reachable_from_inv rows e Hreach) as [Hinv Ht].
  destruct (step_cases action e Hinv)
    as [(-> & _ & Hraise)|(c & e1 & n & b' & _ & Hinv' & Hb & (Ht' & Hh & Hw) & Hrun
                            & _ & Hcount & Hok)]; [congruence|].
  rewrite Hok in Hstep. injection Hstep as <- <- <- <-.
  specialize (Hcount ltac:(by rewrite Ht)).
  destruct (inv_dims e Hinv) as [Hh0 Hw0].
  destruct (inv_maps _ Hinv') as [_ Hrect']. simpl in Hrect'.
  rewrite Hh, Hw in Hrect'.
  pose proof (proj2 (inv_maps e Hinv)) as Hrect.
  pose proof (count_le_size _ _ _ UNKNOWN Hrect' Hh0) as Hle'.
  pose proof (count_le_size _ _ _ UNKNOWN Hrect Hh0) as Hle.
  pose proof (rect_size _ _ _ Hrect' Hh0) as Hsize'.
  pose proof (rect_size _ _ _ Hrect Hh0) as Hsize.
  pose proof (Z.mul_pos_pos _ _ Hh0 Hw0) as Hpos.
  apply update_belief_map_with_lidar_count in Hrun.
  assert (done_of b' = true) as Hdone'; [|by split].
  unfold done_of, coverage in *.
  rewrite threshold_exact in Hdone by lia.
  rewrite threshold_exact by lia.
  apply Z.ltb_lt in Hdone. apply Z.ltb_lt. lia.
Qed.

Lemma done_is_stable_witness :
  true = true /\ done_of (belief_map field_north) = true.
Proof.
  apply (done_is_stable field 1 field_start field_north [0; 0; 0; 0]
           (PyFloat (-0.1)%float) true).
  - apply reach_init. reflexivity.
  - solve_binary.
  - vm_compute. discriminate.
  - reflexivity.
  - reflexivity.
Defined.

(** ** The start cell is the first free cell *)

Lemma where_in_row_head v row c0 c rest j :
  where_in_row v row c0 = c :: rest -> row !! j = Some v -> c <= c0 + Z.of_nat j.
Proof.
  revert c0 j. induction row as [|x row IH]; intros c0 j; simpl; [done|].
  destruct (x =? v) eqn:E.
  - intros [= <- _] _. lia.
  - intros Hw. destruct j as [|j]; simpl.
    + intros [= ->]. apply Z.eqb_neq in E. done.
    + intros Hj. specialize (IH _ _ Hw Hj). lia.
Qed.

Lemma where_in_row_nil v row c0 j :
  where_in_row v row c0 = [] -> row !! j <> Some v.
Proof.
  revert c0 j. induction row as [|x row IH]; intros c0 j; simpl; [done|].
  destruct (x =? v) eqn:E; [done|]. intros Hw.
  destruct j as [|j]; simpl.
  - intros [= ->]. apply Z.eqb_neq in E. done.
  - by apply (IH (c0 + 1)).
Qed.

Lemma argwhere_from_head v a r0 p rest i row j :
  argwhere_from v a r0 = p :: rest -> a !! i = Some row -> row !! j = Some v ->
  row_major_le p (r0 + Z.of_nat i, Z.of_nat j).
Proof.
  revert r0 i. induction a as [|row0 a IH]; intros r0 i; simpl; [done|].
  destruct (where_in_row v row0 0) as [|c cs] eqn:Hw; simpl.
  - intros Ha. destruct i as [|i]; simpl.
    + intros [= ->] Hj. by apply (where_in_row_nil _ _ _ _ Hw) in Hj.
    + intros Hrow Hj. specialize (IH _ _ Ha Hrow Hj).
      unfold row_major_le in *. simpl in *. lia.
  - intros [= <- _]. destruct i as [|i]; simpl.
    + intros [= ->] Hj. pose proof (where_in_row_head _ _ _ _ _ _ Hw Hj).
      unfold row_major_le. simpl. lia.
    + intros _ _. unfold row_major_le. simpl. lia.
Qed.

Lemma getitem_lookup a r c v :
  0 <= r -> 0 <= c -> getitem a r c = Some v ->
  exists row, a !! Z.to_nat r = Some row /\ row !! Z.to_nat c = Some v.
Proof.
  intros Hr Hc (i & row & j & Hi & Hrow & Hj & Hv)%getitem_Some.
  apply (norm_index_nonneg _ _ _ Hr) in Hi as ->.
  apply (norm_index_nonneg _ _ _ Hc) in Hj as ->.
  by exists row.
Qed.

(** X8 — [reset] puts the agent on the first cell of the matrix, read row by
    row, whose value is 0: that cell is free, and no free cell comes before
    it in row-major order. *)
Theorem reset_first_free_cell (e e' : env) (obs : list Z) (r c : Z) :
  reset e = Ok obs e' ->
  0 <= r -> 0 <= c -> getitem (true_map e) r c = Some EMPTY ->
  getitem (true_map e') (fst (agent_pos e')) (snd (agent_pos e')) = Some EMPTY /\
  0 <= fst (agent_pos e') /\ 0 <= snd (agent_pos e') /\
  row_major_le (agent_pos e') (r, c).
Proof.
  intros Hreset Hr Hc Hcell.
  assert (final_state (reset e) = Some e') as Hfin by (by rewrite Hreset).
  apply reset_same_truth in Hfin as (Ht & _).
  rewrite reset_unfold in Hreset. cbv zeta in Hreset.
  destruct (argwhere (true_map e) EMPTY) as [|start rest] eqn:Hstart; [done|].
  destruct (setitem _ _ _ _) as [b1|]; [|done].
  destruct (update_belief_map_with_lidar _) as [n e2| |] eqn:Hrun; [|done..].
  injection Hreset as _ <-.
  assert (agent_pos e2 = start) as ->.
  { assert (final_state (update_belief_map_with_lidar
              (set_belief_map b1 (set_agent_pos start
                 (set_belief_map (full (height e) (width e) UNKNOWN) e))))
            = Some e2) as Hf by (by rewrite Hrun).
    apply update_belief_map_with_lidar_scan_frame in Hf as (b2 & -> & _). done. }
  destruct start as [r0 c0].
  destruct (argwhere_getitem (true_map e) EMPTY r0 c0) as (Hr0 & Hc0 & Hcell0).
  { rewrite Hstart. by left. }
  rewrite Ht. split_and!; try done.
  destruct (getitem_lookup _ _ _ _ Hr Hc Hcell) as (row & Hrow & Hv).
  pose proof (argwhere_from_head _ _ _ _ _ _ _ _ Hstart Hrow Hv) as Hle.
  unfold row_major_le in *. simpl in *. lia.
Qed.

Lemma reset_first_free_cell_witness :
  getitem (true_map room_start) (fst (agent_pos room_start))
    (snd (agent_pos room_start)) = Some EMPTY /\
  0 <= fst (agent_pos room_start) /\ 0 <= snd (agent_pos room_start) /\
  row_major_le (agent_pos room_start) (3, 2).
Proof.
  apply (reset_first_free_cell room_start room_start
           (flatten (belief_map room_start)) 3 2).
  - reflexivity.
  - lia.
  - lia.
  - reflexivity.
Defined.

(** ** [reset] forgets the episode, but not the orientation *)

Lemma ray_agent_dir d fuel dx dy x y n e :
  ray fuel dx dy x y n (set_agent_dir d e)
  = outcome_map (set_agent_dir d) (ray fuel dx dy x y n e).
Proof.
  revert x y n e. induction fuel as [|fuel IH]; intros x y n e; [done|].
  rewrite !ray_S.
  change (in_bounds (set_agent_dir d e) (x + dx) (y + dy))
    with (in_bounds e (x + dx) (y + dy)).
  change (true_map (set_agent_dir d e)) with (true_map e).
  change (belief_map (set_agent_dir d e)) with (belief_map e).
  destruct (in_bounds e (x + dx) (y + dy)); [|done].
  destruct (getitem (true_map e) (x + dx) (y + dy)) as [tv|]; [|done].
  destruct (getitem (belief_map e) (x + dx) (y + dy)) as [s|]; [|done].
  destruct (s =? UNKNOWN).
  - destruct (setitem (belief_map e) (x + dx) (y + dy) tv) as [b'|]; [|done].
    destruct (tv =? WALL); [done|]. apply (IH _ _ _ (set_belief_map b' e)).
  - destruct (tv =? WALL); [done|]. apply IH.
Qed.

Lemma for_each_outcome_map {S A V} (f : S -> S) (l : list A)
    (body : A -> V -> M S V) v s :
  (forall a v s, body a v (f s) = outcome_map f (body a v s)) ->
  for_each l body v (f s) = outcome_map f (for_each l body v s).
Proof.
  intros Hbody. revert v s. induction l as [|a l IH]; intros v s; simpl; [done|].
  unfold bind. rewrite Hbody. destruct (body a v s) as [v1 s1| |]; simpl; [|done..].
  apply IH.
Qed.

Lemma update_belief_map_with_lidar_agent_dir d e :
  update_belief_map_with_lidar (set_agent_dir d e)
  = outcome_map (set_agent_dir d) (update_belief_map_with_lidar e).
Proof.
  unfold update_belief_map_with_lidar, bind, get.
  change (lidar_fuel (set_agent_dir d e)) with (lidar_fuel e).
  unfold lidar, bind, gets.
  change (agent_pos (set_agent_dir d e)) with (agent_pos e).
  destruct (agent_pos e) as [x y].
  apply for_each_outcome_map. intros dx v s.
  apply for_each_outcome_map. intros dy v0 s0.
  destruct ((dx =? 0) && (dy =? 0)); [done|]. apply ray_agent_dir.
Qed.

Lemma reset_agent_dir d e :
  reset (set_agent_dir d e) = outcome_map (set_agent_dir d) (reset e).
Proof.
  rewrite !reset_unfold. cbv zeta.
  change (true_map (set_agent_dir d e)) with (true_map e).
  change (height (set_agent_dir d e)) with (height e).
  change (width (set_agent_dir d e)) with (width e).
  destruct (argwhere (true_map e) EMPTY) as [|start rest]; [done|].
  destruct (setitem _ _ _ _) as [b1|]; [|done].
  set (blank := full (height e) (width e) UNKNOWN).
  change (set_belief_map b1 (set_agent_pos start (set_belief_map blank (set_agent_dir d e))))
    with (set_agent_dir d (set_belief_map b1 (set_agent_pos start (set_belief_map blank e)))).
  rewrite update_belief_map_with_lidar_agent_dir.
  by destruct (update_belief_map_with_lidar _).
Qed.

(** A [reset] that returns has read neither the belief map nor the position
    of the state it was called in. *)
Lemma reset_reads t h w d b p obs e0 :
  reset (mkEnv t h w 0 [] (0, 0)) = Ok obs e0 ->
  reset (mkEnv t h w d b p) = Ok obs (set_agent_dir d e0).
Proof.
  rewrite !reset_unfold. cbv zeta. simpl.
  destruct (argwhere t EMPTY) as [|start rest]; [done|].
  destruct (setitem _ _ _ _) as [b1|]; [|done].
  change (set_belief_map b1 (set_agent_pos start
            (set_belief_map (full h w UNKNOWN) (mkEnv t h w d b p))))
    with (set_agent_dir d (set_belief_map b1 (set_agent_pos start
            (set_belief_map (full h w UNKNOWN) (mkEnv t h w 0 [] (0, 0)))))).
  rewrite update_belief_map_with_lidar_agent_dir.
  destruct (update_belief_map_with_lidar _) as [n e2| |]; [|done..].
  simpl. by intros [= <- <-].
Qed.

Lemma reachable_from_same_truth rows e e0 :
  reachable_from rows e -> init rows = Built e0 -> same_truth e0 e.
Proof.
  induction 1 as [e Hinit|e e' _ IH Hreset|e action e' _ IH Hstep]; intros Hinit0.
  - rewrite Hinit in Hinit0. injection Hinit0 as ->. done.
  - etrans; [by apply IH|]. by apply reset_same_truth.
  - etrans; [by apply IH|].
    apply step_episode_frame in Hstep as (? & ? & ? & _). done.
Qed.

(** X9 — In every state the object can reach, [reset] returns, with the belief
    map, the position and the observation of the freshly built object:
    nothing of the episode survives, except the orientation, which [reset]
    leaves as it is (only the constructor sets it to 0). *)
Theorem reset_forgets_history (rows : list (list Z)) (e e0 : env) :
  reachable_from rows e -> init rows = Built e0 ->
  reset e = Ok (flatten (belief_map e0)) (set_agent_dir (agent_dir e) e0).
Proof.
  intros Hreach Hinit.
  destruct (reachable_from_same_truth rows e e0 Hreach Hinit) as (Ht & Hh & Hw).
  unfold init in Hinit.
  destruct (loadtxt rows) as [x|[shp a]] eqn:Hload; [done|].
  destruct shp as [|h [|w [|? ?]]]; try done.
  apply loadtxt_rect in Hload as (-> & Hrect & _).
  destruct (reset (mkEnv rows h w 0 [] (0, 0))) as [obs e1| |] eqn:Hreset; [|done..].
  injection Hinit as ->.
  assert (final_state (reset (mkEnv rows h w 0 [] (0, 0))) = Some e0) as Hfin
    by (by rewrite Hreset).
  apply reset_same_truth in Hfin as (Ht0 & Hh0 & Hw0). simpl in *.
  pose proof (reset_outcome (mkEnv rows h w 0 [] (0, 0)) Hrect) as Hout.
  rewrite Hreset in Hout. destruct Hout as (_ & -> & _); [simpl; lia|].
  destruct e as [t h' w' d b p]. simpl in *.
  assert (t = rows) as -> by congruence.
  assert (h' = h) as -> by congruence.
  assert (w' = w) as -> by congruence.
  by apply reset_reads.
Qed.

Lemma reset_forgets_history_witness :
  reset (set_agent_dir 1 room_start)
  = Ok (flatten (belief_map room_start))
       (set_agent_dir (agent_dir (set_agent_dir 1 room_start)) room_start).
Proof.
  apply (reset_forgets_history room (set_agent_dir 1 room_start) room_start).
  - apply (reach_step room room_start 1).
    + apply reach_init. reflexivity.
    + reflexivity.
  - reflexivity.
Defined.

(** ** The observation *)

Lemma flatten_lookup (w : nat) (a : ndarray) (i j : nat) (row : list Z) :
  Forall (λ row, length row = w) a -> a !! i = Some row -> (j < w)%nat ->
  flatten a !! (i * w + j)%nat = row !! j.
Proof.
  unfold flatten. revert i. induction a as [|row0 a IH]; intros i Hall; [done|].
  apply Forall_cons_1 in Hall as [Hlen Hall]. destruct i as [|i]; simpl.
  - intros [= ->] Hj. apply lookup_app_l. lia.
  - intros Hrow Hj. rewrite lookup_app_r by lia.
    replace (w + i * w + j - length row0)%nat with (i * w + j)%nat by lia.
    by apply IH.
Qed.

Lemma rect_flatten_lookup h w a r c :
  rect h w a -> 0 <= r < h -> 0 <= c < w ->
  flatten a !! Z.to_nat (r * w + c) = getitem a r c.
Proof.
  intros [Hlen Hrows] Hr Hc.
  destruct (lookup_lt_is_Some_2 a (Z.to_nat r)) as [row Hrow]; [lia|].
  assert (length row = Z.to_nat w) as Hw.
  { pose proof (Forall_lookup_1 _ _ _ _ Hrows Hrow) as H. simpl in H. lia. }
  replace (Z.to_nat (r * w + c)) with (Z.to_nat r * Z.to_nat w + Z.to_nat c)%nat by nia.
  rewrite (flatten_lookup (Z.to_nat w) a _ _ row); [|
    eapply Forall_impl; [exact Hrows|simpl; intros; lia] |done|lia].
  symmetry. unfold getitem.
  rewrite norm_index_inside by lia. simpl. rewrite Hrow. simpl.
  rewrite norm_index_inside by lia. done.
Qed.

(** X10 — The observation that [reset] and [step] return is the belief map of the
    state they leave, read row by row: it has [height * width] entries, and
    the entry at index [r * width + c] is the belief about the cell
    [(r, c)]. *)
Theorem observation_layout (rows : list (list Z)) (action : Z) (e e' : env)
    (obs : list Z) (reward : pynum) (done : bool) (r c : Z) :
  reachable_from rows e ->
  step action e = Ok (obs, reward, done) e' \/ reset e = Ok obs e' ->
  in_bounds e' r c = true ->
  Z.of_nat (length obs) = height e' * width e' /\
  obs !! Z.to_nat (r * width e' + c) = getitem (belief_map e') r c.
Proof.
  intros Hreach Hcall Hin.
  assert (reachable_from rows e' /\ obs = flatten (belief_map e')) as [Hreach' ->].
  { destruct Hcall as [Hstep|Hreset].
    - split; [apply (reach_step rows e action); [done|by rewrite Hstep]|].
      rewrite step_unfold in Hstep.
      destruct (move action e) as [col e1| |]; [|done..].
      destruct (update_belief_map_with_lidar e1) as [n e2| |]; [|done..].
      destruct (size (belief_map e2) =? 0); [done|]. by injection Hstep as <- _ _ <-.
    - split; [apply (reach_reset rows e); [done|by rewrite Hreset]|].
      rewrite reset_unfold in Hreset. cbv zeta in Hreset.
      destruct (argwhere (true_map e) EMPTY) as [|start rest]; [done|].
      destruct (setitem _ _ _ _) as [b1|]; [|done].
      destruct (update_belief_map_with_lidar _) as [n e2| |]; [|done..].
      by injection Hreset as <- <-. }
  apply reachable_from_inv in Hreach' as [Hinv _].
  destruct (inv_maps e' Hinv) as [_ Hrect]. apply in_bounds_spec in Hin.
  split.
  - apply rect_flatten_length; [done|lia].
  - apply (rect_flatten_lookup (height e') (width e')); [done|lia..].
Qed.

Lemma observation_layout_witness :
  Z.of_nat (length [0; 0; 0; 0]) = height field_north * width field_north /\
  [0; 0; 0; 0] !! Z.to_nat (1 * width field_north + 1)
  = getitem (belief_map field_north) 1 1.
Proof.
  apply (observation_layout field 1 field_start field_north [0; 0; 0; 0]
           (PyFloat (-0.1)%float) true 1 1).
  - apply reach_init. reflexivity.
  - left. reflexivity.
  - reflexivity.
Defined.

(** ** The constructor *)

Lemma argwhere_from_nil v a r0 i row j :
  argwhere_from v a r0 = [] -> a !! i = Some row -> row !! j <> Some v.
Proof.
  revert r0 i. induction a as [|row0 a IH]; intros r0 i; simpl; [done|].
  intros [Hw Ha]%app_eq_nil. apply map_eq_nil in Hw.
  destruct i as [|i]; simpl.
  - intros [= ->]. by apply (where_in_row_nil _ _ 0).
  - by apply (IH (r0 + 1)).
Qed.

Lemma loadtxt_matrix rows h w :
  rect h w rows -> forallb (forallb int64) rows = true -> 2 <= h -> w <> 1 ->
  loadtxt rows = inr ([h; w], rows).
Proof.
  intros [Hlen Hrows] Hint Hh Hw. unfold loadtxt.
  destruct rows as [|row0 rest]; [simpl in Hlen; lia|].
  apply Forall_cons_1 in Hrows as Hrow0. destruct Hrow0 as [Hrow0 _].
  rewrite Hint.
  replace (forallb (λ row, (length row =? length row0)%nat) (row0 :: rest))
    with true.
  2:{ symmetry. apply forallb_forall. intros row Hin%list_elem_of_In.
      rewrite Forall_forall in Hrows. apply Hrows in Hin. apply Nat.eqb_eq. lia. }
  cbv [andb].
  rewrite !filter_cons, filter_nil. rewrite Hlen, Hrow0.
  destruct (decide (h ≠ 1)); [|lia]. destruct (decide (w ≠ 1)); done.
Qed.

(** X11 — From a matrix of 64-bit integers, of at least two rows and two
    columns, that holds a 0, the constructor returns an object: the ground
    truth is the matrix, the dimensions are its own, the agent faces east
    (orientation 0) and stands, inside the map, on the first free cell. *)
Theorem constructor_builds (rows : list (list Z)) (h w r c : Z) :
  rect h w rows -> forallb (forallb int64) rows = true ->
  2 <= h -> 2 <= w ->
  0 <= r -> 0 <= c -> getitem rows r c = Some EMPTY ->
  exists e,
    init rows = Built e /\
    true_map e = rows /\ height e = h /\ width e = w /\ agent_dir e = 0 /\
    head (argwhere rows EMPTY) = Some (agent_pos e) /\
    position_claim e /\
    rect h w (belief_map e).
Proof.
  intros Hrect Hint Hh Hw Hr Hc Hcell. unfold init.
  rewrite (loadtxt_matrix rows h w Hrect Hint) by lia.
  pose proof (reset_outcome (mkEnv rows h w 0 [] (0, 0)) Hrect) as Hout.
  destruct (reset (mkEnv rows h w 0 [] (0, 0))) as [obs e|x e|] eqn:Hreset.
  - destruct Hout as (Hinv & _ & Ht & Hd & Hhead); [simpl; lia|].
    destruct (reset_same_truth _ e ltac:(by rewrite Hreset)) as (_ & Hh' & Hw').
    simpl in *. exists e. split_and!; try done.
    + destruct (argwhere rows EMPTY) as [|[r0 c0] rest] eqn:Hstart; [done|].
      injection Hhead as Hpos.
      destruct (argwhere_getitem rows EMPTY r0 c0) as (Hr0 & Hc0 & Hcell0).
      { rewrite Hstart. by left. }
      destruct (rect_in_bounds _ _ _ _ _ _ Hrect Hr0 Hc0 Hcell0).
      unfold position_claim. rewrite <- Hpos. split; simpl.
      * apply in_bounds_spec. lia.
      * by rewrite Ht.
    + destruct (inv_maps e Hinv) as [_ Hb]. by rewrite Hh', Hw' in Hb.
  - destruct Hout as [Hnil _]; [simpl; lia|]. simpl in Hnil.
    destruct (getitem_lookup _ _ _ _ Hr Hc Hcell) as (row & Hrow & Hv).
    by destruct (argwhere_from_nil _ _ _ _ _ _ Hnil Hrow Hv).
  - destruct Hout. simpl. lia.
Qed.

Lemma constructor_builds_witness :
  exists e,
    init room = Built e /\
    true_map e = room /\ height e = 5 /\ width e = 5 /\ agent_dir e = 0 /\
    head (argwhere room EMPTY) = Some (agent_pos e) /\
    position_claim e /\
    rect 5 5 (belief_map e).
Proof.
  apply (constructor_builds room 5 5 2 2).
  - split; [reflexivity|]. repeat constructor.
  - reflexivity.
  - lia.
  - lia.
  - lia.
  - lia.
  - reflexivity.
Defined.

(** X12 — A map of a single row or a single column, or an empty one, cannot be
    loaded: the loader returns an array of fewer than two dimensions, and
    the assignment [self.height, self.width = self.true_map.shape] raises
    ValueError. *)
Theorem constructor_needs_matrix (rows : list (list Z)) (h w : Z) :
  rect h w rows -> h <= 1 \/ w = 1 -> init rows = Failed ValueError.
Proof.
  intros [Hlen Hrows] Hdim. unfold init, loadtxt.
  destruct rows as [|row0 rest]; [done|].
  apply Forall_cons_1 in Hrows as Hrow0. destruct Hrow0 as [Hrow0 _].
  destruct (forallb _ _ && forallb _ _); [|done].
  rewrite !filter_cons, filter_nil. rewrite Hlen, Hrow0.
  destruct (decide (h ≠ 1)); destruct (decide (w ≠ 1)); try done.
  simpl in Hlen. lia.
Qed.

Lemma constructor_needs_matrix_witness : init [[0; 1; 0]] = Failed ValueError.
Proof.
  apply (constructor_needs_matrix [[0; 1; 0]] 1 3).
  - split; [reflexivity|]. repeat constructor.
  - lia.
Defined.

(** X13 — A matrix of 64-bit integers without any 0 is loaded but cannot be
    used: [reset], called by the constructor, finds no start cell and
    [start_pos_arr[0]] raises IndexError. *)
Theorem constructor_needs_free_cell (rows : list (list Z)) (h w : Z) :
  rect h w rows -> forallb (forallb int64) rows = true ->
  2 <= h -> w <> 1 ->
  (forall r c, 0 <= r -> 0 <= c -> getitem rows r c <> Some EMPTY) ->
  init rows = Failed IndexError.
Proof.
  intros Hrect Hint Hh Hw Hnone. unfold init.
  rewrite (loadtxt_matrix rows h w Hrect Hint) by lia.
  rewrite reset_unfold. cbv zeta. simpl.
  destruct (argwhere rows EMPTY) as [|[r0 c0] rest] eqn:Hstart; [done|].
  destruct (argwhere_getitem rows EMPTY r0 c0) as (Hr0 & Hc0 & Hcell0).
  { rewrite Hstart. by left. }
  by destruct (Hnone r0 c0).
Qed.

Lemma constructor_needs_free_cell_witness :
  init [[1; 1]; [1; 1]] = Failed IndexError.
Proof.
  apply (constructor_needs_free_cell [[1; 1]; [1; 1]] 2 2).
  - split; [reflexivity|]. repeat constructor.
  - reflexivity.
  - lia.
  - lia.
  - intros r c Hr Hc Hcell.
    destruct (getitem_lookup _ _ _ _ Hr Hc Hcell) as (row & Hrow & Hv).
    destruct (Z.to_nat r) as [|[|?]]; simpl in Hrow; [| |done];
      injection Hrow as <-;
      (destruct (Z.to_nat c) as [|[|?]]; simpl in Hv; done).
Defined.

(** ** [render] *)

Lemma norm_index_mod n i k :
  norm_index n i = Some k -> Z.of_nat k = i mod Z.of_nat n.
Proof.
  unfold norm_index.
  destruct ((0 <=? i) && (i <? Z.of_nat n)) eqn:E1.
  - intros [= <-]. apply andb_prop in E1 as [?%Z.leb_le ?%Z.ltb_lt].
    rewrite Z.mod_small by lia. lia.
  - destruct ((- Z.of_nat n <=? i) && (i <? 0)) eqn:E2; [|done].
    intros [= <-]. apply andb_prop in E2 as [?%Z.leb_le ?%Z.ltb_lt].
    rewrite Z2Nat.id by lia.
    apply (Z.mod_unique i (Z.of_nat n) (-1)); lia.
Qed.

Lemma render_unfold e :
  render e =
  match array_setitem (astype_float (belief_map e))
          (fst (agent_pos e)) (snd (agent_pos e)) (float_of_int AGENT_VIEW) with
  | None => Raise IndexError e
  | Some display_map =>
      if size (belief_map e) =? 0 then Raise ZeroDivisionError e
      else Ok (display_map, coverage (belief_map e)) e
  end.
Proof.
  unfold render, bind, gets, index, coverage_of, raise, ret.
  destruct (array_setitem _ _ _ _); [|done].
  by destruct (size (belief_map e) =? 0).
Qed.

Lemma render_outcome e :
  inv e ->
  exists display_map,
    render e = Ok (display_map, coverage (belief_map e)) e /\
    forall r c, in_bounds e r c = true ->
      array_getitem display_map r c =
      if (r =? fst (agent_pos e) mod height e)
         && (c =? snd (agent_pos e) mod width e)
      then Some (float_of_int AGENT_VIEW)
      else float_of_int <$> getitem (belief_map e) r c.
Proof.
  intros Hinv.
  destruct (inv_dims e Hinv) as [Hh Hw].
  destruct (inv_maps e Hinv) as [[Hlt Hrt] [Hlb Hrb]].
  destruct (inv_free e Hinv) as (cell & Hcell & _).
  apply getitem_Some in Hcell as (i & row & j & Hi & Hrow & Hj & _).
  pose proof (Forall_lookup_1 _ _ _ _ Hrt Hrow) as Hlrow. simpl in Hlrow.
  pose proof (norm_index_lt _ _ _ Hi) as Hilt.
  pose proof (norm_index_lt _ _ _ Hj) as Hjlt.
  pose proof (norm_index_mod _ _ _ Hi) as Himod.
  pose proof (norm_index_mod _ _ _ Hj) as Hjmod.
  rewrite Hlt in Himod. rewrite Hlrow in Hjmod.
  assert (length (belief_map e) = length (true_map e)) as Hlen by lia.
  destruct (lookup_lt_is_Some_2 (belief_map e) i) as [brow Hbrow]; [lia|].
  pose proof (Forall_lookup_1 _ _ _ _ Hrb Hbrow) as Hlbrow. simpl in Hlbrow.
  assert (length brow = length row) as Hlen' by lia.
  set (x := float_of_int AGENT_VIEW).
  assert (array_setitem (astype_float (belief_map e))
            (fst (agent_pos e)) (snd (agent_pos e)) x
          = Some (<[i := <[j := x]> (float_of_int <$> brow)]>
                    (astype_float (belief_map e)))) as Hset.
  { unfold array_setitem, astype_float.
    rewrite length_fmap, Hlen, Hi. simpl.
    rewrite list_lookup_fmap, Hbrow. simpl.
    rewrite length_fmap, Hlen', Hj. done. }
  eexists. split.
  { rewrite render_unfold. fold x. rewrite Hset.
    by rewrite (size_nonzero (height e) (width e)). }
  intros r c [Hr Hc]%in_bounds_spec.
  unfold array_getitem, getitem, astype_float.
  rewrite length_insert, length_fmap.
  rewrite !norm_index_inside by lia. simpl.
  destruct (decide (Z.to_nat r = i)) as [Hri|Hri].
  - replace (r =? fst (agent_pos e) mod height e) with true
      by (symmetry; apply Z.eqb_eq; lia).
    rewrite <- Hri in *.
    rewrite list_lookup_insert_eq by (rewrite length_fmap; lia). simpl.
    rewrite Hbrow. simpl.
    rewrite length_insert, length_fmap.
    rewrite !norm_index_inside by lia.
    destruct (decide (Z.to_nat c = j)) as [Hcj|Hcj].
    + replace (c =? snd (agent_pos e) mod width e) with true
        by (symmetry; apply Z.eqb_eq; lia).
      simpl. rewrite <- Hcj. apply list_lookup_insert_eq. rewrite length_fmap. lia.
    + replace (c =? snd (agent_pos e) mod width e) with false
        by (symmetry; apply Z.eqb_neq; lia).
      simpl. rewrite list_lookup_insert_ne by done. apply list_lookup_fmap.
  - replace (r =? fst (agent_pos e) mod height e) with false
      by (symmetry; apply Z.eqb_neq; lia).
    simpl. rewrite list_lookup_insert_ne by done.
    rewrite list_lookup_fmap.
    destruct (belief_map e !! Z.to_nat r) as [row'|] eqn:Hrow'; [|done]. simpl.
    rewrite length_fmap.
    destruct (norm_index (length row') c) as [j'|]; [|done]. simpl.
    apply list_lookup_fmap.
Qed.

(** X14 — In every state the object can reach, [render] returns and changes no
    field of the object: the frame it draws is a copy of the belief map, as
    floats, in which the cell of the agent holds 5.0; a negative coordinate
    of the position marks the cell counted from the opposite edge. The
    coverage it prints is the ratio that [step] tests. *)
Theorem render_shows (rows : list (list Z)) (e : env) :
  reachable_from rows e ->
  exists display_map,
    render e = Ok (display_map, coverage (belief_map e)) e /\
    forall r c, in_bounds e r c = true ->
      array_getitem display_map r c =
      if (r =? fst (agent_pos e) mod height e)
         && (c =? snd (agent_pos e) mod width e)
      then Some (float_of_int AGENT_VIEW)
      else float_of_int <$> getitem (belief_map e) r c.
Proof.
  intros Hreach. apply reachable_from_inv in Hreach as [Hinv _].
  by apply render_outcome.
Qed.

Lemma render_shows_witness :
  exists display_map,
    render field_outside = Ok (display_map, coverage (belief_map field_outside))
                              field_outside /\
    forall r c, in_bounds field_outside r c = true ->
      array_getitem display_map r c =
      if (r =? fst (agent_pos field_outside) mod height field_outside)
         && (c =? snd (agent_pos field_outside) mod width field_outside)
      then Some (float_of_int AGENT_VIEW)
      else float_of_int <$> getitem (belief_map field_outside) r c.
Proof.
  apply (render_shows field field_outside).
  apply (reach_step field field_north 0); [|reflexivity].
  apply (reach_step field field_start 1); [|reflexivity].
  apply reach_init. reflexivity.
Defined.

(** ** The driver: one episode on an enclosed map *)

Lemma walled_same_truth e e' : same_truth e e' -> walled e -> walled e'.
Proof.
  intros (Ht & Hh & Hw) Hwalled r c Hin Hborder. rewrite Ht. apply Hwalled.
  - apply in_bounds_spec. apply in_bounds_spec in Hin. lia.
  - lia.
Qed.

Lemma episode_steps_S todo i choice total e :
  episode_steps (S todo) i choice total e =
  match step (choice i) e with
  | Ok (next_obs, reward, done) e1 =>
      match render e1 with
      | Ok _ e2 =>
          if done then Ok (S i, py_add total reward, true) e2
          else episode_steps todo (S i) choice (py_add total reward) e2
      | Raise x e2 => Raise x e2
      | Diverge => Diverge
      end
  | Raise x e1 => Raise x e1
  | Diverge => Diverge
  end.
Proof.
  simpl. unfold bind at 1.
  destruct (step (choice i) e) as [[[next_obs reward] flag] e1| |]; [|done..].
  unfold bind. destruct (render e1) as [frame e2| |]; [|done..].
  by destruct flag.
Qed.

Lemma episode_steps_walled rows choice todo i total e :
  reachable_from rows e -> binary rows -> walled e ->
  exists k total' done e',
    episode_steps todo i choice total e = Ok (k, total', done) e' /\
    (i <= k <= i + todo)%nat /\
    (0 < todo -> i < k)%nat /\
    (todo = O -> e' = e /\ done = false) /\
    ((0 < todo)%nat -> done = done_of (belief_map e')) /\
    (done = false -> k = (i + todo)%nat) /\
    reachable_from rows e' /\ walled e'.
Proof.
  intros Hreach Hbin. revert i total e Hreach.
  induction todo as [|todo IH]; intros i total e Hreach Hwalled.
  { exists i, total, false, e. simpl. unfold ret. split_and!; try done; lia. }
  rewrite episode_steps_S.
  destruct (step_walled rows e (choice i) Hreach Hbin Hwalled)
    as (obs & reward & e1 & Hstep & Hwalled1 & _).
  rewrite Hstep.
  assert (reachable_from rows e1) as Hreach1.
  { apply (reach_step rows e (choice i)); [done|]. by rewrite Hstep. }
  destruct (render_outcome e1) as (frame & -> & _).
  { apply (reachable_from_inv rows e1 Hreach1). }
  destruct (done_of (belief_map e1)) eqn:Hdone.
  - exists (S i), (py_add total reward), true, e1.
    split_and!; try done; lia.
  - destruct (IH (S i) (py_add total reward) e1 Hreach1 Hwalled1)
      as (k & total' & flag & e' & -> & Hk & Hlt & Hzero & Hflag & Hfull & Hreach' & Hwalled').
    exists k, total', flag, e'. split_and!; try done; try lia.
    + intros _. destruct todo as [|todo].
      * destruct Hzero as [-> ->]; [done|]. by rewrite Hdone.
      * apply Hflag. lia.
    + intros Hd. specialize (Hfull Hd). lia.
Qed.

(** X15 — On a 0/1 map whose border cells are all walls, one episode of the
    driver ([reset], then the loop over [step] and [render]) never raises,
    whatever actions are drawn: it takes between 1 and 500 steps, leaves the
    loop by [break] exactly when the belief map it ends with passes the
    coverage test, and otherwise runs all 500 steps. *)
Theorem episode_on_enclosed_map (rows : list (list Z)) (e : env)
    (choice : nat -> Z) :
  reachable_from rows e -> binary rows -> walled e ->
  exists steps_taken total_reward done e',
    run_episode choice e = Ok (steps_taken, total_reward, done) e' /\
    (1 <= steps_taken <= MAX_STEPS_PER_EPISODE)%nat /\
    done = done_of (belief_map e') /\
    (done = false -> steps_taken = MAX_STEPS_PER_EPISODE) /\
    reachable_from rows e' /\ walled e'.
Proof.
  intros Hreach Hbin Hwalled.
  pose proof (reachable_from_inv rows e Hreach) as [Hinv _].
  unfold run_episode, bind.
  pose proof (reset_outcome e (proj1 (inv_maps e Hinv)) (inv_dir e Hinv)) as Hout.
  destruct (reset e) as [obs e0|x e0|] eqn:Hreset; [| |done].
  2:{ destruct Hout as [Hnil _]. by destruct (inv_start e Hinv). }
  assert (reachable_from rows e0) as Hreach0.
  { apply (reach_reset rows e); [done|]. by rewrite Hreset. }
  assert (walled e0) as Hwalled0.
  { apply (walled_same_truth e); [|done].
    apply reset_same_truth. by rewrite Hreset. }
  destruct (episode_steps_walled rows choice MAX_STEPS_PER_EPISODE 0 (PyInt 0) e0
              Hreach0 Hbin Hwalled0)
    as (k & total' & flag & e' & Hrun & Hk & Hlt & _ & Hflag & Hfull & Hreach' & Hwalled').
  exists k, total', flag, e'.
  assert (0 < MAX_STEPS_PER_EPISODE)%nat as Hmax by (unfold MAX_STEPS_PER_EPISODE; lia).
  split_and!; try done.
  - specialize (Hlt Hmax). lia.
  - lia.
  - by apply Hflag.
Qed.

Lemma episode_on_enclosed_map_witness :
  exists steps_taken total_reward done e',
    run_episode (fun i => Z.of_nat (i mod 3)) room_start
      = Ok (steps_taken, total_reward, done) e' /\
    (1 <= steps_taken <= MAX_STEPS_PER_EPISODE)%nat /\
    done = done_of (belief_map e') /\
    (done = false -> steps_taken = MAX_STEPS_PER_EPISODE) /\
    reachable_from room e' /\ walled e'.
Proof.
  apply (episode_on_enclosed_map room room_start).
  - apply reach_init. reflexivity.
  - solve_binary.
  - apply walledb_walled. reflexivity.
Defined.

(** ** A step that raises has changed nothing *)

(** X16 — In a state the object can reach, when [step] raises, the action was 0
    (forward), the exception is IndexError, the ground truth has no cell at
    the candidate position, and every field of the object is as it was: the
    position and the belief map are only written after the lookup that
    raises. *)
Theorem step_raise_is_atomic (rows : list (list Z)) (action : Z) (e e' : env)
    (x : exn) :
  reachable_from rows e -> step action e = Raise x e' ->
  x = IndexError /\ action = 0 /\ e' = e /\
  exists cand, candidate e = Some cand /\
    getitem (true_map e) (fst cand) (snd cand) = None.
Proof.
  intros Hreach Hraised.
  apply reachable_from_inv in Hreach as [Hinv _].
  destruct (step_cases action e Hinv)
    as [(-> & Hmove & Hraise)|(c & e1 & n & b' & _ & _ & _ & _ & _ & _ & _ & Hok)];
    [|congruence].
  rewrite Hraise in Hraised. injection Hraised as <- <-.
  split_and!; try done.
  destruct (candidate_valid e (inv_dir e Hinv)) as [cand Hcand].
  exists cand. split; [done|].
  destruct (getitem (true_map e) (fst cand) (snd cand)) as [cell|] eqn:Hcell; [|done].
  rewrite (move_forward e cand cell Hcand Hcell) in Hmove.
  by destruct (cell =? WALL).
Qed.

Lemma step_raise_is_atomic_witness :
  IndexError = IndexError /\ 0 = 0 /\ field_east = field_east /\
  exists cand, candidate field_east = Some cand /\
    getitem (true_map field_east) (fst cand) (snd cand) = None.
Proof.
  apply (step_raise_is_atomic field 0 field_east field_east IndexError).
  - apply (reach_step field field_start 0); [|reflexivity].
    apply reach_init. reflexivity.
  - reflexivity.
Defined.

(** ** A step that leaves the agent where it is discovers nothing *)

Lemma scanned_same e e1 :
  same_truth e e1 -> belief_map e1 = belief_map e -> agent_pos e1 = agent_pos e ->
  scanned e -> scanned e1.
Proof.
  destruct e as [t h w d b p], e1 as [t1 h1 w1 d1 b1 p1].
  intros (Ht & Hh & Hw) Hb Hp. simpl in *. subst. done.
Qed.

(** X17 — On a 0/1 map, in every state the object can reach, a step after which
    the agent stands where it stood (a turn, a collision, an unknown action
    code) leaves the belief map as it was: the scan counts no cell, and the
    reward is that of no discovery. *)
Theorem stay_discovers_nothing (rows : list (list Z)) (action : Z) (e e' : env)
    (obs : list Z) (reward : pynum) (done : bool) :
  reachable_from rows e -> binary rows ->
  step action e = Ok (obs, reward, done) e' ->
  agent_pos e' = agent_pos e ->
  belief_map e' = belief_map e /\ obs = flatten (belief_map e) /\
  exists is_collision, reward = reward_of is_collision 0.
Proof.
  intros Hreach Hbin Hstep Hpos.
  apply reachable_from_inv in Hreach as [Hinv Ht].
  destruct (step_cases action e Hinv)
    as [(-> & _ & Hraise)|(c & e1 & n & b' & _ & Hinv' & Hb & Hsame & Hrun & _ & _ & Hok)];
    [congruence|].
  rewrite Hok in Hstep. injection Hstep as <- <- _ <-. simpl in Hpos.
  assert (wf_maps e1) as Hwf1.
  { destruct (inv_maps _ Hinv') as [Htm _]. simpl in Htm. split; [done|].
    destruct Hsame as (_ & -> & ->). rewrite Hb. apply (inv_maps e Hinv). }
  assert (binary (true_map e1)) as Hbin1.
  { destruct Hsame as (-> & _). by rewrite Ht. }
  assert (scanned e1) as Hsc1.
  { apply (scanned_same e); try done. apply (inv_scanned e Hinv). by rewrite Ht. }
  rewrite (scanned_idle e1 Hwf1 Hbin1 Hsc1) in Hrun.
  injection Hrun as <- Heq.
  assert (b' = belief_map e1) as -> by (by rewrite Heq).
  simpl. rewrite Hb. split_and!; try done. by exists c.
Qed.

Lemma stay_discovers_nothing_witness :
  belief_map room_start = belief_map room_start /\
  flatten (belief_map room_start) = flatten (belief_map room_start) /\
  exists is_collision, PyFloat (-0.1)%float = reward_of is_collision 0.
Proof.
  apply (stay_discovers_nothing room 7 room_start room_start
           (flatten (belief_map room_start)) (PyFloat (-0.1)%float) false).
  - apply reach_init. reflexivity.
  - solve_binary.
  - reflexivity.
  - reflexivity.
Defined.

(** ** The agent is never on a wall *)

Lemma norm_index_range n i k : norm_index n i = Some k -> - Z.of_nat n <= i < Z.of_nat n.
Proof.
  unfold norm_index.
  destruct ((0 <=? i) && (i <? Z.of_nat n)) eqn:E1.
  - intros _. apply andb_prop in E1 as [?%Z.leb_le ?%Z.ltb_lt]. lia.
  - destruct ((- Z.of_nat n <=? i) && (i <? 0)) eqn:E2; [|done].
    intros _. apply andb_prop in E2 as [?%Z.leb_le ?%Z.ltb_lt]. lia.
Qed.

(** X18 — In every state the object can reach, on any map, the stored position
    indexes a cell of the ground truth that is not a wall; its coordinates
    may be negative, down to [-height] and [-width], and then address the
    cell counted from the opposite edge. *)
Theorem agent_never_on_wall (rows : list (list Z)) (e : env) :
  reachable_from rows e ->
  - height e <= fst (agent_pos e) < height e /\
  - width e <= snd (agent_pos e) < width e /\
  exists cell,
    getitem rows (fst (agent_pos e)) (snd (agent_pos e)) = Some cell /\
    cell <> WALL.
Proof.
  intros Hreach. apply reachable_from_inv in Hreach as [Hinv <-].
  destruct (inv_maps e Hinv) as [[Hlen Hrows] _].
  destruct (inv_free e Hinv) as (cell & Hcell & Hfree).
  apply getitem_Some in Hcell as Hcell'.
  destruct Hcell' as (i & row & j & Hi & Hrow & Hj & _).
  apply norm_index_range in Hi, Hj.
  pose proof (Forall_lookup_1 _ _ _ _ Hrows Hrow) as Hw. simpl in Hw.
  split; [lia|]. split; [lia|]. by exists cell.
Qed.

Lemma agent_never_on_wall_witness :
  - height field_outside <= fst (agent_pos field_outside) < height field_outside /\
  - width field_outside <= snd (agent_pos field_outside) < width field_outside /\
  exists cell,
    getitem field (fst (agent_pos field_outside)) (snd (agent_pos field_outside))
      = Some cell /\
    cell <> WALL.
Proof.
  apply (agent_never_on_wall field field_outside).
  apply (reach_step field field_north 0); [|reflexivity].
  apply (reach_step field field_start 1); [|reflexivity].
  apply reach_init. reflexivity.
Defined.

(** ** The scan does not read the orientation *)

(** X19 — The scan looks in all eight directions whatever the agent faces: in two
    states that differ in the orientation only, it counts the same cells and
    writes the same belief map. *)
Theorem scan_ignores_orientation (d : Z) (e e' : env) (n : Z) :
  update_belief_map_with_lidar e = Ok n e' ->
  update_belief_map_with_lidar (set_agent_dir d e) = Ok n (set_agent_dir d e').
Proof.
  intros Hrun. by rewrite update_belief_map_with_lidar_agent_dir, Hrun.
Qed.

Lemma scan_ignores_orientation_witness :
  update_belief_map_with_lidar (set_agent_dir 3 room_start)
  = Ok 0 (set_agent_dir 3 room_start).
Proof.
  apply (scan_ignores_orientation 3 room_start room_start 0). reflexivity.
Defined.


(** ** The Forward move inside the map, and the turns *)

(** X20 — In every state the object can reach, when the candidate cell
    (position plus the displacement of the orientation) lies inside the map,
    a Forward step returns: if the ground truth marks the candidate as a
    wall it reports a collision and the position is unchanged, otherwise it
    reports no collision and the position is the candidate. *)
Theorem forward_move_inside_map (e : env) (cand : Z * Z) :
  reachable e ->
  candidate e = Some cand ->
  in_bounds e (fst cand) (snd cand) = true ->
  forward_claim e.
Proof.
  intros Hinv%reachable_inv Hcand Hin.
  pose proof (inv_maps e Hinv) as Hwf.
  exists cand. split; [done|].
  apply in_bounds_spec in Hin as [Hr Hc].
  destruct (rect_getitem _ _ _ _ _ (proj1 Hwf) Hr Hc) as [cell Hcell].
  unfold is_wall. rewrite Hcell.
  pose proof (move_forward e cand cell Hcand Hcell) as Hmove.
  pose proof (getitem_dims _ _ _ _ _ _ (proj1 Hwf) Hcell) as Hdims.
  destruct (cell =? WALL).
  - by apply step_reports_intro.
  - by apply (step_reports_intro 0 e false (set_agent_pos cand e)).
Qed.

Lemma forward_move_inside_map_witness : forward_claim room_start.
Proof.
  apply (forward_move_inside_map room_start (1, 2)).
  - exists room. apply reach_init. reflexivity.
  - reflexivity.
  - reflexivity.
Defined.

(** X21 — In every state the object can reach, on any map and wherever the
    agent stands, a turn (action 1 or 2) returns, reports no collision and
    leaves the position as it was. *)
Theorem turns_never_move (e : env) :
  reachable e -> turn_claim e.
Proof.
  intros Hinv%reachable_inv.
  pose proof (inv_maps e Hinv) as Hwf.
  pose proof (inv_free e Hinv) as (cell & Hcell & Hfree).
  pose proof (getitem_dims _ _ _ _ _ _ (proj1 Hwf) Hcell) as Hdims.
  apply Z.eqb_neq in Hfree.
  assert (forall action, action <> 0 ->
            step_reports action e false (agent_pos e)) as Hturn.
  { intros action Ha.
    pose proof (move_in_place action e cell Ha Hcell) as Hmove.
    rewrite Hfree in Hmove.
    apply (step_reports_intro action e false _) in Hmove; [done| |].
    - apply (turned_inv action e Hinv).
    - unfold turned. by repeat case_match. }
  split; by apply Hturn.
Qed.

Lemma turns_never_move_witness : turn_claim field_outside.
Proof.
  apply (turns_never_move field_outside).
  exists field.
  apply (reach_step field field_north 0); [|reflexivity].
  apply (reach_step field field_start 1); [|reflexivity].
  apply reach_init. reflexivity.
Defined.
